(** * The news collection and enrichment pipeline of [statistics/get_news.py]

  A shallow embedding of the four functions of the collection stage,

  - [get_news_articles]          (the Article Fetcher),
  - [analyze_political_leaning]  (the Leaning Scorer),
  - [extract_states]             (the State Matcher),
  - [compile_news_political_data] (the Enrichment Pipeline),

  together with the properties of them that the specification states.

  Conventions of the embedding.
  - A Python [str] is a [string]; a character ([ascii]) stands for the code
    point of the same number, so the texts covered are those over the code
    points below 256.  [len], slicing and [in] work on characters.
  - A Python [float] is a [pyfloat]: not-a-number, an infinity, or a finite
    value kept as an exact rational.  Only comparisons are ever applied to a
    score, and those are exact on floats.
  - The two external services are oracles of the environment; every request
    made to them is recorded in the [World], as are the console reports of
    the pipeline and the content of the output artifact. *)

From Stdlib Require Import Ascii String QArith.
From stdpp Require Import list gmap strings.

Local Open Scope string_scope.
Local Open Scope list_scope.

(** ** Python strings *)

Module PyStr.

(** [needle in hay] for two strings. *)
Fixpoint contains (needle hay : string) : bool :=
  String.prefix needle hay
  || match hay with
     | EmptyString => false
     | String _ rest => contains needle rest
     end.

(** [str.isspace] on one character, for the code points below 256. *)
Definition is_space (c : ascii) : bool :=
  let n := nat_of_ascii c in
  (((9 <=? n) && (n <=? 13)) || ((28 <=? n) && (n <=? 32))
   || (n =? 133) || (n =? 160))%nat.

Fixpoint lstrip (s : string) : string :=
  match s with
  | EmptyString => EmptyString
  | String c rest => if is_space c then lstrip rest else s
  end.

Fixpoint rstrip (s : string) : string :=
  match s with
  | EmptyString => EmptyString
  | String c rest =>
      let rest' := rstrip rest in
      if is_space c && String.eqb rest' "" then "" else String c rest'
  end.

(** [s.strip()] *)
Definition strip (s : string) : string := rstrip (lstrip s).

(** [s[:n]] *)
Definition take (n : nat) (s : string) : string := String.substring 0 n s.

(** The number of characters of [s] that are not whitespace. *)
Fixpoint non_whitespace (s : string) : nat :=
  match s with
  | EmptyString => 0
  | String c rest => (if is_space c then 0 else 1) + non_whitespace rest
  end.

(** The position of the first occurrence of [needle] in [hay]
    ([hay.find(needle)], with [None] for -1). *)
Fixpoint find (needle hay : string) : option nat :=
  if String.prefix needle hay then Some 0
  else match hay with
       | EmptyString => None
       | String _ rest => S <$> find needle rest
       end.

End PyStr.

(** ** Python floats *)

Module PyFloat.

(** The values of a Python [float] that the scorer can meet.  A finite value
    is kept exact: [float()] rounds a literal to the nearest double, and
    rounding is monotone and fixes 10 and -10, so the comparisons with the
    two bounds made below come out the same on the rounded value. *)
Inductive pyfloat : Type :=
| NaN : pyfloat
| Inf (negative : bool) : pyfloat
| Fin (q : Q) : pyfloat.

(** [a < b]; every comparison with not-a-number is false. *)
Definition lt (a b : pyfloat) : bool :=
  match a, b with
  | NaN, _ | _, NaN => false
  | Inf true, Inf true => false
  | Inf true, _ => true
  | _, Inf true => false
  | Inf false, _ => false
  | _, Inf false => true
  | Fin x, Fin y => negb (Qle_bool y x)
  end.

(** The built-in [min(a, b)]: the first argument stays unless the second is
    smaller. *)
Definition py_min (a b : pyfloat) : pyfloat := if lt b a then b else a.

(** The built-in [max(a, b)]: the first argument stays unless the second is
    greater. *)
Definition py_max (a b : pyfloat) : pyfloat := if lt a b then b else a.

(** A score lies in the closed interval from -10 to 10 (and so is a finite
    number). *)
Definition in_range (x : pyfloat) : Prop :=
  match x with
  | Fin q => (-10 <= q /\ q <= 10)%Q
  | _ => False
  end.

Definition digit_of (c : ascii) : option N :=
  let n := N_of_ascii c in
  if ((48 <=? n) && (n <=? 57))%N then Some (n - 48)%N else None.

Definition lower (c : ascii) : ascii :=
  let n := N_of_ascii c in
  if ((65 <=? n) && (n <=? 90))%N then ascii_of_N (n + 32) else c.

(** A run of decimal digits, in which one underscore may stand between two
    digits: the value read, the number of digits, and what follows. *)
Fixpoint read_digits (after_digit : bool) (acc : N) (cnt : nat)
    (l : list ascii) : N * nat * list ascii :=
  match l with
  | [] => (acc, cnt, [])
  | c :: r =>
      match digit_of c with
      | Some d => read_digits true (acc * 10 + d)%N (S cnt) r
      | None =>
          if after_digit && Ascii.eqb c "_" then
            match r with
            | c' :: _ =>
                if is_Some_dec (digit_of c')
                then read_digits false acc cnt r
                else (acc, cnt, l)
            | [] => (acc, cnt, l)
            end
          else (acc, cnt, l)
      end
  end.

(** The exponent part that may end a literal: [None] when it is malformed. *)
Definition read_exponent (l : list ascii) : option Z :=
  match l with
  | [] => Some 0%Z
  | c :: r =>
      if Ascii.eqb (lower c) "e" then
        let '(neg, r) :=
          match r with
          | s :: r' =>
              if Ascii.eqb s "-" then (true, r')
              else if Ascii.eqb s "+" then (false, r') else (false, r)
          | [] => (false, r)
          end in
        match read_digits false 0 0 r with
        | (e, S _, []) => Some (if neg then - Z.of_N e else Z.of_N e)%Z
        | _ => None
        end
      else None
  end.

(** An unsigned decimal literal: digits, an optional fraction, an optional
    exponent, with a digit before or after the point. *)
Definition read_decimal (l : list ascii) : option Q :=
  let '(i, ni, r1) := read_digits false 0 0 l in
  let '(f, nf, r2) :=
    match r1 with
    | c :: r => if Ascii.eqb c "." then read_digits false 0 0 r else (0%N, 0, r1)
    | [] => (0%N, 0, r1)
    end in
  if (ni + nf =? 0)%nat then None
  else
    match read_exponent r2 with
    | None => None
    | Some e =>
        let mantissa := Z.of_N (i * 10 ^ N.of_nat nf + f) in
        let e := (e - Z.of_nat nf)%Z in
        Some (if (0 <=? e)%Z
              then inject_Z (mantissa * 10 ^ e)
              else (mantissa # Z.to_pos (10 ^ (- e))))
    end.

(** [float(s)] for a string: [None] stands for [ValueError].  Magnitudes past
    the range of a double stay finite here, where Python gives an infinity
    (or a zero); the clamp below treats both alike. *)
Definition float_of_str (s : string) : option pyfloat :=
  let l := list_ascii_of_string (PyStr.strip s) in
  let '(neg, body) :=
    match l with
    | c :: r =>
        if Ascii.eqb c "-" then (true, r)
        else if Ascii.eqb c "+" then (false, r) else (false, l)
    | [] => (false, l)
    end in
  let word := string_of_list_ascii (map lower body) in
  if String.eqb word "nan" then Some NaN
  else if String.eqb word "inf" || String.eqb word "infinity" then Some (Inf neg)
  else
    match read_decimal body with
    | Some q => Some (Fin (if neg then - q else q)%Q)
    | None => None
    end.

Definition of_Z (z : Z) : pyfloat := Fin (inject_Z z).

End PyFloat.

Import PyFloat.

(** ** The State Matcher: [extract_states] *)

(** The table scanned by [extract_states]: the 50 full names, then the 50
    abbreviations. *)
Definition states : list string :=
  [ "Alabama"; "Alaska"; "Arizona"; "Arkansas"; "California"; "Colorado"; "Connecticut";
    "Delaware"; "Florida"; "Georgia"; "Hawaii"; "Idaho"; "Illinois"; "Indiana"; "Iowa";
    "Kansas"; "Kentucky"; "Louisiana"; "Maine"; "Maryland"; "Massachusetts"; "Michigan";
    "Minnesota"; "Mississippi"; "Missouri"; "Montana"; "Nebraska"; "Nevada"; "New Hampshire";
    "New Jersey"; "New Mexico"; "New York"; "North Carolina"; "North Dakota"; "Ohio"; "Oklahoma";
    "Oregon"; "Pennsylvania"; "Rhode Island"; "South Carolina"; "South Dakota"; "Tennessee";
    "Texas"; "Utah"; "Vermont"; "Virginia"; "Washington"; "West Virginia"; "Wisconsin"; "Wyoming";
    "AL"; "AK"; "AZ"; "AR"; "CA"; "CO"; "CT"; "DE"; "FL"; "GA"; "HI"; "ID"; "IL"; "IN"; "IA";
    "KS"; "KY"; "LA"; "ME"; "MD"; "MA"; "MI"; "MN"; "MS"; "MO"; "MT"; "NE"; "NV"; "NH"; "NJ";
    "NM"; "NY"; "NC"; "ND"; "OH"; "OK"; "OR"; "PA"; "RI"; "SC"; "SD"; "TN"; "TX"; "UT"; "VT";
    "VA"; "WA"; "WV"; "WI"; "WY" ].

(** The items of the dictionary from abbreviations to full names. *)
Definition abbr_to_name_items : list (string * string) :=
  [ ("AL", "Alabama"); ("AK", "Alaska"); ("AZ", "Arizona"); ("AR", "Arkansas"); ("CA", "California");
    ("CO", "Colorado"); ("CT", "Connecticut"); ("DE", "Delaware"); ("FL", "Florida"); ("GA", "Georgia");
    ("HI", "Hawaii"); ("ID", "Idaho"); ("IL", "Illinois"); ("IN", "Indiana"); ("IA", "Iowa");
    ("KS", "Kansas"); ("KY", "Kentucky"); ("LA", "Louisiana"); ("ME", "Maine"); ("MD", "Maryland");
    ("MA", "Massachusetts"); ("MI", "Michigan"); ("MN", "Minnesota"); ("MS", "Mississippi"); ("MO", "Missouri");
    ("MT", "Montana"); ("NE", "Nebraska"); ("NV", "Nevada"); ("NH", "New Hampshire"); ("NJ", "New Jersey");
    ("NM", "New Mexico"); ("NY", "New York"); ("NC", "North Carolina"); ("ND", "North Dakota"); ("OH", "Ohio");
    ("OK", "Oklahoma"); ("OR", "Oregon"); ("PA", "Pennsylvania"); ("RI", "Rhode Island"); ("SC", "South Carolina");
    ("SD", "South Dakota"); ("TN", "Tennessee"); ("TX", "Texas"); ("UT", "Utah"); ("VT", "Vermont");
    ("VA", "Virginia"); ("WA", "Washington"); ("WV", "West Virginia"); ("WI", "Wisconsin"); ("WY", "Wyoming") ].

Definition abbr_to_name : gmap string string := list_to_map abbr_to_name_items.

(** The test of the loop of [extract_states] for one entry of the table:
    [f" {state} " in f" {text} " or f" {state}," in text or f" {state}." in text]. *)
Definition state_hit (text state : string) : bool :=
  PyStr.contains (" " +:+ state +:+ " ") (" " +:+ text +:+ " ")
  || PyStr.contains (" " +:+ state +:+ ",") text
  || PyStr.contains (" " +:+ state +:+ ".") text.

(** One turn of the loop over [states]. *)
Definition extract_step (text : string) (mentioned_states : list string)
    (state : string) : list string :=
  if state_hit text state then
    if (String.length state =? 2)%nat then
      match abbr_to_name !! state with
      | Some state_name =>
          if negb (String.eqb state_name "")
             && negb (bool_decide (state_name ∈ mentioned_states))
          then mentioned_states ++ [state_name]
          else mentioned_states
      | None => mentioned_states
      end
    else if negb (bool_decide (state ∈ mentioned_states))
    then mentioned_states ++ [state]
    else mentioned_states
  else mentioned_states.

Definition extract_states (text : string) : list string :=
  if String.eqb text "" then [] else foldl (extract_step text) [] states.

(** The 50 canonical full names and the 50 abbreviations, as the two halves
    of the table. *)
Definition full_names : list string := take 50 states.
Definition abbreviations : list string := drop 50 states.

(** The full name an abbreviation stands for. *)
Definition name_of (abbr : string) : string := default "" (abbr_to_name !! abbr).

(** The table and its dictionary are unfolded on request only. *)
#[global] Arguments states : simpl never.
#[global] Arguments abbr_to_name_items : simpl never.
#[global] Arguments abbr_to_name : simpl never.
#[global] Arguments full_names : simpl never.
#[global] Arguments abbreviations : simpl never.
#[global] Arguments name_of : simpl never.
#[global] Arguments state_hit : simpl never.
#[global] Arguments extract_states : simpl never.
Strategy 100 [states abbr_to_name_items abbr_to_name full_names abbreviations].

(** ** Articles, rows and the world around the pipeline *)

(** One entry of the [results] list of the search service, as decoded from
    JSON: a field is [None] when its key is missing ([raw_source_title] also
    when there is no [source] object).  Fields that are present hold
    strings; a result with a null or a value of another kind in a field is
    not covered. *)
Record raw_article : Type := RawArticle {
  raw_title : option string;
  raw_description : option string;
  raw_extract : option string;
  raw_body : option string;
  raw_url : option string;
  raw_source_title : option string;
  raw_dateTime : option string;
  raw_date : option string
}.

(** The dictionary that [get_news_articles] builds for an article. *)
Module Article.
Record t : Type := Make {
  title : string;
  description : string;
  body : string;
  url : string;
  source_name : string;
  publishedAt : string;
  date : string
}.
End Article.

(** One record of [processed_data], a line of the output table. *)
Module Row.
Record t : Type := Make {
  state : string;
  title : string;
  url : string;
  source : string;
  political_leaning : pyfloat;
  date : string
}.
End Row.

(** What one POST to the search service comes to: an exception of the
    transport, or a response with its status code and, when its body decodes,
    the list under [articles.results] (empty when a key is missing). *)
Inductive page_reply : Type :=
| RequestFailed : page_reply
| Response (status_code : nat) (results : option (list raw_article)) : page_reply.

(** What one chat completion comes to: any exception, or the text of the
    first choice. *)
Inductive chat_reply : Type :=
| ChatFailed : chat_reply
| ChatReply (content : string) : chat_reply.

(** The environment of a run: the search service (by query, days back and
    page), the classification service (by the number of completions already
    requested and the prompt), and the clock. *)
Record Env : Type := MkEnv {
  news_api : string -> nat -> nat -> page_reply;
  openai_chat : nat -> string -> chat_reply;
  now_isoformat : string;
  now_date : string
}.

(** The reports that [compile_news_political_data] prints. *)
Inductive message : Type :=
| FetchingTopic (topic : string)
| FoundForTopic (n : nat) (topic : string)
| NoneForTopic (topic : string)
| NoArticlesFetched
| ProcessingUnique (n : nat)
| ProcessingArticle (i n : nat)
| SavedProcessed (n : nat)
| NoStateMentions.

(** The state a run acts on: the pages requested from the search service, the
    texts handed to the Leaning Scorer, the prompts sent to the
    classification service, the console, and the content of
    [news_political_data.csv] ([None] while the file does not exist). *)
Record World : Type := MkWorld {
  requests : list (string * nat);
  scored : list string;
  prompts : list string;
  console : list message;
  artifact : option (list Row.t)
}.

(** Stateful code is a function of the world. *)
Definition M (A : Type) : Type := World -> A * World.

#[global] Instance M_ret : MRet M := fun A (a : A) (w : World) => (a, w).

#[global] Instance M_bind : MBind M :=
  fun A B (f : A -> M B) (m : M A) (w : World) => let '(a, w') := m w in f a w'.

Definition print (msg : message) : M unit := fun w =>
  (tt, MkWorld (requests w) (scored w) (prompts w) (console w ++ [msg]) (artifact w)).

(** [df.to_csv('news_political_data.csv', index=False)]: the file is
    replaced by the table. *)
Definition to_csv (df : list Row.t) : M unit := fun w =>
  (tt, MkWorld (requests w) (scored w) (prompts w) (console w) (Some df)).

Section Pipeline.

Context (env : Env).

(** [requests.post(base_url, json=request_body)] for one page. *)
Definition post (query : string) (days_back page : nat) : M page_reply := fun w =>
  (news_api env query days_back page,
   MkWorld (requests w ++ [(query, page)]) (scored w) (prompts w) (console w) (artifact w)).

(** [openai.chat.completions.create(...)] with [prompt] as the user message. *)
Definition chat_completion (prompt : string) : M chat_reply := fun w =>
  (openai_chat env (length (prompts w)) prompt,
   MkWorld (requests w) (scored w) (prompts w ++ [prompt]) (console w) (artifact w)).

(** An entry into [analyze_political_leaning]. *)
Definition enter_scorer (text : string) : M unit := fun w =>
  (tt, MkWorld (requests w) (scored w ++ [text]) (prompts w) (console w) (artifact w)).

(** ** The Leaning Scorer: [analyze_political_leaning] *)

Definition analyze_political_leaning (text : string) : M pyfloat :=
  enter_scorer text;;
  if String.eqb text "" || (String.length (PyStr.strip text) <? 10)%nat
  then mret (of_Z 0)
  else
    reply ← chat_completion (PyStr.take 800 text);
    match reply with
    | ChatFailed => mret (of_Z 0)
    | ChatReply content =>
        let score_text := PyStr.strip content in
        match float_of_str score_text with
        | Some score =>
            let normalized_score := py_max (py_min score (of_Z 10)) (of_Z (-10)) in
            mret normalized_score
        | None => mret (of_Z 0)
        end
    end.

(** ** The Article Fetcher: [get_news_articles] *)

Definition max_pages : nat := 10.
Definition articlesCount : nat := 100.

(** The dictionary appended to [transformed_articles] for one result. *)
Definition transform (article : raw_article) : Article.t :=
  let source_name := default "Unknown" (raw_source_title article) in
  let body := default "" (raw_body article) in
  let title := default "" (raw_title article) in
  let description :=
    let d := default "" (raw_description article) in
    if String.eqb d "" then default "" (raw_extract article) else d in
  Article.Make title description body (default "" (raw_url article)) source_name
    (default (now_isoformat env) (raw_dateTime article))
    (default (now_date env) (raw_date article)).

(** The [while page <= max_pages] loop; [fuel] bounds the number of turns. *)
Fixpoint fetch_pages (fuel : nat) (query : string) (days_back page : nat)
    (all_articles : list Article.t) : M (list Article.t) :=
  match fuel with
  | O => mret all_articles
  | S fuel =>
      if (page <=? max_pages)%nat then
        reply ← post query days_back page;
        match reply with
        | RequestFailed => mret all_articles
        | Response status_code data =>
            if negb (status_code =? 200)%nat then mret all_articles
            else
              match data with
              | None => mret all_articles
              | Some [] => mret all_articles
              | Some articles =>
                  let transformed_articles := transform <$> articles in
                  let all_articles := all_articles ++ transformed_articles in
                  if (length articles <? articlesCount)%nat then mret all_articles
                  else fetch_pages fuel query days_back (page + 1) all_articles
              end
        end
      else mret all_articles
  end.

(** The loop starts at page 1 and every turn that goes on adds one to
    [page], so [max_pages] turns and the closing test are all it can take. *)
Definition get_news_articles (query : string) (days_back : nat) : M (list Article.t) :=
  fetch_pages (S max_pages) query days_back 1 [].

(** ** The Enrichment Pipeline: [compile_news_political_data] *)

Definition topics : list string :=
  ["politics"; "election"; "governor"; "senator"; "congress"; "state legislation"].

(** The loop over [topics]. *)
Fixpoint fetch_topics (topics : list string) (all_articles : list Article.t)
    : M (list Article.t) :=
  match topics with
  | [] => mret all_articles
  | topic :: rest =>
      print (FetchingTopic topic);;
      articles ← get_news_articles topic 30;
      match articles with
      | [] => print (NoneForTopic topic);; fetch_topics rest all_articles
      | _ =>
          print (FoundForTopic (length articles) topic);;
          fetch_topics rest (all_articles ++ articles)
      end
  end.

(** One turn of the loop that removes duplicates: the state is
    [(unique_urls, unique_articles)]. *)
Definition dedup_step (st : gset string * list Article.t) (article : Article.t)
    : gset string * list Article.t :=
  let '(unique_urls, unique_articles) := st in
  if bool_decide (Article.url article ∈ unique_urls) then st
  else ({[ Article.url article ]} ∪ unique_urls, unique_articles ++ [article]).

Definition unique_by_url (all_articles : list Article.t) : list Article.t :=
  (foldl dedup_step (∅, []) all_articles).2.

(** [full_text]: the title, then the description and the body when they are
    not empty, each after a space. *)
Definition full_text_of (article : Article.t) : string :=
  let full_text := Article.title article in
  let full_text :=
    if String.eqb (Article.description article) "" then full_text
    else full_text +:+ " " +:+ Article.description article in
  if String.eqb (Article.body article) "" then full_text
  else full_text +:+ " " +:+ Article.body article.

(** The record appended to [processed_data] for one state of an article. *)
Definition make_row (article : Article.t) (leaning : pyfloat) (state : string) : Row.t :=
  Row.Make state (Article.title article) (Article.url article)
    (Article.source_name article) leaning (Article.date article).

(** The body of the loop over [enumerate(unique_articles)]; [n] is
    [len(unique_articles)]. *)
Definition process_article (i n : nat) (article : Article.t)
    (processed_data : list Row.t) : M (list Row.t) :=
  (if (i mod 5 =? 0)%nat then print (ProcessingArticle (i + 1) n) else mret tt);;
  let full_text := full_text_of article in
  let states := extract_states full_text in
  match states with
  | [] => mret processed_data
  | _ =>
      leaning ← analyze_political_leaning full_text;
      mret (processed_data ++ (make_row article leaning <$> states))
  end.

Fixpoint process_articles (i n : nat) (unique_articles : list Article.t)
    (processed_data : list Row.t) : M (list Row.t) :=
  match unique_articles with
  | [] => mret processed_data
  | article :: rest =>
      processed_data ← process_article i n article processed_data;
      process_articles (S i) n rest processed_data
  end.

Definition compile_news_political_data : M (list Row.t) :=
  all_articles ← fetch_topics topics [];
  match all_articles with
  | [] => print NoArticlesFetched;; mret []
  | _ =>
      let unique_articles := unique_by_url all_articles in
      print (ProcessingUnique (length unique_articles));;
      df ← process_articles 0 (length unique_articles) unique_articles [];
      match df with
      | [] => print NoStateMentions
      | _ => to_csv df;; print (SavedProcessed (length df))
      end;;
      mret df
  end.

End Pipeline.

(** * Definitions used in the statements *)

(** The full name an entry of the table stands for. *)
Definition canon (state : string) : string :=
  if (String.length state =? 2)%nat then name_of state else state.

(** An entry of two letters has a non-empty name in the dictionary. *)
Definition entry_ok (state : string) : bool :=
  if (String.length state =? 2)%nat
  then match abbr_to_name !! state with
       | Some state_name => negb (String.eqb state_name "")
       | None => false
       end
  else true.

(** [name] appended to the result unless it is there. *)
Definition add_unique (mentioned_states : list string) (name : string) : list string :=
  if bool_decide (name ∈ mentioned_states) then mentioned_states
  else mentioned_states ++ [name].

(** The names met in one half of the table, in the order of the table. *)
Definition hit_by_name (text : string) : list string :=
  List.filter (state_hit text) full_names.

(** The names of the abbreviations met, in the order of the table, without
    the names that the text holds in full. *)
Definition hit_by_abbreviation_only (text : string) : list string :=
  List.filter (fun name => negb (state_hit text name))
    (name_of <$> List.filter (state_hit text) abbreviations).

(** The position at which a state is first mentioned in a text: the least
    position of an occurrence of its full name or of its abbreviation. *)
Definition mention_position (text name : string) : option nat :=
  match omap (fun t => PyStr.find t text)
          (List.filter (fun t => String.eqb (canon t) name) states) with
  | [] => None
  | p :: ps => Some (foldl Nat.min p ps)
  end.

(** What the claim asks: the states are listed by the position of their
    first mention. *)
Definition in_order_of_first_mention (text : string) (out : list string) : Prop :=
  forall i j s1 s2 p1 p2,
    out !! i = Some s1 -> out !! j = Some s2 -> i < j ->
    mention_position text s1 = Some p1 -> mention_position text s2 = Some p2 ->
    p1 <= p2.

(** A run in which no request to the search service goes through and every
    completion is the text [reply]. *)
Definition env_replying (reply : string) : Env :=
  MkEnv (fun _ _ _ => RequestFailed) (fun _ _ => ChatReply reply) "" "".

(** The world before anything has happened: no request made, nothing
    printed, no artifact. *)
Definition world0 : World := MkWorld [] [] [] [] None.

(** The articles of [l] kept by the loop when the urls of [seen] have been
    met before. *)
Fixpoint keep_unseen (seen : gset string) (l : list Article.t) : list Article.t :=
  match l with
  | [] => []
  | a :: l =>
      if bool_decide (Article.url a ∈ seen) then keep_unseen seen l
      else a :: keep_unseen ({[ Article.url a ]} ∪ seen) l
  end.

(** What a page adds to [all_articles]: the results of a response with
    status 200 whose body decodes, nothing otherwise. *)
Definition page_results (env : Env) (query : string) (days_back page : nat)
    : list raw_article :=
  match news_api env query days_back page with
  | Response status_code (Some articles) =>
      if (status_code =? 200)%nat then articles else []
  | _ => []
  end.

(** The world after the pages [page], ..., [page + k - 1] have been
    requested. *)
Definition after_requests (query : string) (page k : nat) (w : World) : World :=
  MkWorld (requests w ++ ((fun p => (query, p)) <$> seq page k))
    (scored w) (prompts w) (console w) (artifact w).

(** A result that has a title and a url, and no other field. *)
Definition raw_of_url (u title : string) : raw_article :=
  RawArticle (Some title) None None None (Some u) None None None.




(** The world after the report that opens a turn of the loop over the
    unique articles. *)
Definition progress (i n : nat) (w : World) : World :=
  if (i mod 5 =? 0)%nat then (print (ProcessingArticle (i + 1) n) w).2 else w.

(** An article of which the text names a state. *)
Definition mentions_a_state (article : Article.t) : bool :=
  match extract_states (full_text_of article) with
  | [] => false
  | _ => true
  end.

(** ** The state codes of the dashboard ([statistics/streamlit_map.py]) *)

(** The items of [STATE_ABBREV], the dictionary from state names to their
    abbreviations. *)
Definition STATE_ABBREV_items : list (string * string) :=
  [ ("Alabama", "AL"); ("Alaska", "AK"); ("Arizona", "AZ"); ("Arkansas", "AR"); ("California", "CA");
    ("Colorado", "CO"); ("Connecticut", "CT"); ("Delaware", "DE"); ("Florida", "FL"); ("Georgia", "GA");
    ("Hawaii", "HI"); ("Idaho", "ID"); ("Illinois", "IL"); ("Indiana", "IN"); ("Iowa", "IA");
    ("Kansas", "KS"); ("Kentucky", "KY"); ("Louisiana", "LA"); ("Maine", "ME"); ("Maryland", "MD");
    ("Massachusetts", "MA"); ("Michigan", "MI"); ("Minnesota", "MN"); ("Mississippi", "MS"); ("Missouri", "MO");
    ("Montana", "MT"); ("Nebraska", "NE"); ("Nevada", "NV"); ("New Hampshire", "NH"); ("New Jersey", "NJ");
    ("New Mexico", "NM"); ("New York", "NY"); ("North Carolina", "NC"); ("North Dakota", "ND"); ("Ohio", "OH");
    ("Oklahoma", "OK"); ("Oregon", "OR"); ("Pennsylvania", "PA"); ("Rhode Island", "RI"); ("South Carolina", "SC");
    ("South Dakota", "SD"); ("Tennessee", "TN"); ("Texas", "TX"); ("Utah", "UT"); ("Vermont", "VT");
    ("Virginia", "VA"); ("Washington", "WA"); ("West Virginia", "WV"); ("Wisconsin", "WI"); ("Wyoming", "WY");
    ("District of Columbia", "DC") ].

Definition STATE_ABBREV : gmap string string := list_to_map STATE_ABBREV_items.

(** One cell of the column [state_code] that [aggregate_state_data] adds
    with [state_avg['state'].map(STATE_ABBREV)]: [None] stands for the
    missing value of a state that the dictionary does not hold. *)
Definition state_code (state : string) : option string := STATE_ABBREV !! state.

(** [missing_codes] of [main]: the states of the aggregated table whose
    code is missing. *)
Definition missing_codes (states : list string) : list string :=
  List.filter (fun state => negb (bool_decide (is_Some (state_code state)))) states.

#[global] Arguments STATE_ABBREV_items : simpl never.
#[global] Arguments STATE_ABBREV : simpl never.
Strategy 100 [STATE_ABBREV_items STATE_ABBREV].




(** A completion from which no score can be read: the call raised, or the
    text of the reply is not a literal that [float] accepts. *)
Definition reply_unusable (reply : chat_reply) : Prop :=
  match reply with
  | ChatFailed => True
  | ChatReply content => float_of_str (PyStr.strip content) = None
  end.

(** The rows that the articles of a list give when each comes with a score:
    for every article in turn, one row per state that its text names. *)
Definition rows_of (scored_articles : list (Article.t * pyfloat)) : list Row.t :=
  flat_map (fun p => make_row p.1 p.2 <$> extract_states (full_text_of p.1))
    scored_articles.

(** What tells the rows of a table apart: the url of the article and the
    state. *)
Definition row_key (r : Row.t) : string * string := (Row.url r, Row.state r).

(** [part] stands in [full] as a text of its own: at the start of [full] or
    after a space, and at the end of [full] or before a space. *)
Definition stands_in (part full : string) : Prop :=
  exists pre post,
    full = pre +:+ part +:+ post
    /\ (pre = "" \/ exists pre', pre = pre' +:+ " ")
    /\ (post = "" \/ exists post', post = " " +:+ post').

(** The services of a second run, [env2], answer as those of a first run,
    [env1], did: the search service gives the same reply for every page of
    every query, the classification service gives the same reply to a
    prompt however many completions were asked for before, and the clock
    reads the same. *)
Definition same_answers (env1 env2 : Env) : Prop :=
  (forall (query : string) (days_back page : nat),
      news_api env1 query days_back page = news_api env2 query days_back page)
  /\ (forall (n m : nat) (prompt : string),
        openai_chat env1 n prompt = openai_chat env2 m prompt)
  /\ now_isoformat env1 = now_isoformat env2
  /\ now_date env1 = now_date env2.

(** The services of a later run where the search service has found a
    second article for "politics", about Utah; all else is as in
    [env_one_article] below. *)
Definition env_second_article : Env :=
  MkEnv (fun query _ page =>
           match page with
           | 1 => if String.eqb query "politics"
                  then Response 200 (Some [raw_of_url "https://example.org/a"
                                             "Texas and Ohio vote on the budget";
                                           raw_of_url "https://example.org/b"
                                             "Utah passes a water bill"])
                  else Response 200 (Some [])
           | _ => RequestFailed
           end)
        (fun _ _ => ChatReply "-4") "2024-01-01T00:00:00" "2024-01-01".

(** A search service that has one article, about two states, for the topic
    "politics" and nothing for the other topics; every completion is "-4". *)
Definition env_one_article : Env :=
  MkEnv (fun query _ page =>
           match page with
           | 1 => if String.eqb query "politics"
                  then Response 200 (Some [raw_of_url "https://example.org/a"
                                             "Texas and Ohio vote on the budget"])
                  else Response 200 (Some [])
           | _ => RequestFailed
           end)
        (fun _ _ => ChatReply "-4") "2024-01-01T00:00:00" "2024-01-01".

(** * Properties *)

(** ** Substring search *)

Lemma prefix_spec (p s : string) :
  String.prefix p s = true <-> exists post, s = p +:+ post.
Proof.
  revert s. induction p as [|c p IH]; intros s; simpl.
  - split; [intros _; by exists s | by destruct s].
  - destruct s as [|d s]; simpl.
    + split; [done | intros [post H]; discriminate].
    + destruct (Ascii.ascii_dec c d) as [->|Hne].
      * rewrite IH. split; intros [post H]; exists post.
        -- by rewrite H.
        -- by injection H.
      * split; [done | intros [post H]; by injection H as -> _].
Qed.

Lemma contains_nil (needle : string) :
  PyStr.contains needle "" = String.prefix needle "".
Proof. simpl. by rewrite orb_false_r. Qed.

Lemma contains_cons (needle : string) (c : ascii) (hay : string) :
  PyStr.contains needle (String c hay)
  = String.prefix needle (String c hay) || PyStr.contains needle hay.
Proof. reflexivity. Qed.

(** [contains] is the substring test. *)
Lemma contains_spec (needle hay : string) :
  PyStr.contains needle hay = true
  <-> exists pre post, hay = pre +:+ needle +:+ post.
Proof.
  induction hay as [|c hay IH].
  - rewrite contains_nil, prefix_spec. split.
    + intros [post H]. by exists "", post.
    + intros [pre [post H]]. destruct pre; [by exists post | discriminate].
  - rewrite contains_cons, orb_true_iff, prefix_spec, IH. split.
    + intros [[post H] | [pre [post H]]].
      * by exists "", post.
      * exists (String c pre), post. simpl. by rewrite H.
    + intros [pre [post H]]. destruct pre as [|d pre]; simpl in H.
      * left. by exists post.
      * right. injection H as -> ->. by exists pre, post.
Qed.

(** ** The State Matcher *)

Lemma extract_step_canon (text : string) (acc : list string) (state : string) :
  entry_ok state = true ->
  extract_step text acc state
  = if state_hit text state then add_unique acc (canon state) else acc.
Proof.
  unfold extract_step, entry_ok, canon, add_unique, name_of.
  destruct (state_hit text state); [|done].
  destruct (String.length state =? 2)%nat.
  - destruct (abbr_to_name !! state) as [n|]; [|done]. simpl.
    intros ->. simpl. by destruct (bool_decide (n ∈ acc)).
  - intros _. by destruct (bool_decide (state ∈ acc)).
Qed.

Lemma foldl_ext_in {A B : Type} (f g : A -> B -> A) (l : list B) (a : A) :
  (forall a x, x ∈ l -> f a x = g a x) -> foldl f a l = foldl g a l.
Proof.
  revert a. induction l as [|x l IH]; intros a H; [done|]. simpl.
  rewrite H by left. apply IH. intros a' y Hy. apply H. by right.
Qed.

Lemma filter_ext_elem {A : Type} (p q : A -> bool) (l : list A) :
  (forall x, x ∈ l -> p x = q x) -> List.filter p l = List.filter q l.
Proof.
  intros H. apply List.filter_ext_in. intros x Hx. apply H.
  by apply list_elem_of_In.
Qed.

(** The scan of a part of the table whose entries stand for pairwise
    different states: the states hit are appended in the order of the table,
    but for those already there. *)
Lemma foldl_add_unique (hit : string -> bool) (f : string -> string)
    (l acc : list string) :
  NoDup (f <$> l) ->
  foldl (fun acc t => if hit t then add_unique acc (f t) else acc) acc l
  = acc ++ List.filter (fun n => negb (bool_decide (n ∈ acc))) (f <$> List.filter hit l).
Proof.
  revert acc. induction l as [|t l IH]; intros acc Hnd.
  - simpl. by rewrite app_nil_r.
  - rewrite fmap_cons in Hnd. apply NoDup_cons in Hnd as [Hnotin Hnd].
    simpl. destruct (hit t) eqn:Hhit; [|by apply IH].
    rewrite IH by done. unfold add_unique. rewrite fmap_cons. simpl.
    destruct (bool_decide (f t ∈ acc)) eqn:Hin; simpl; [done|].
    rewrite <- app_assoc. simpl. do 2 f_equal.
    apply filter_ext_elem. intros x Hx. f_equal.
    apply bool_decide_ext. rewrite elem_of_app, list_elem_of_singleton.
    split; [|by left]. intros [? | ->]; [done|].
    exfalso. apply Hnotin.
    apply list_elem_of_fmap in Hx as [y [-> Hy]].
    apply list_elem_of_fmap. exists y. split; [done|].
    apply list_elem_of_In, List.filter_In in Hy as [Hy _].
    by apply list_elem_of_In.
Qed.

Lemma states_split : states = full_names ++ abbreviations.
Proof. reflexivity. Qed.

Lemma table_check :
  forallb entry_ok states = true
  /\ forallb (fun s => String.eqb (canon s) s && negb (String.length s =? 2)%nat) full_names = true
  /\ forallb (fun a => (String.length a =? 2)%nat && bool_decide (is_Some (abbr_to_name !! a)))
       abbreviations = true
  /\ name_of <$> abbreviations = full_names
  /\ forallb (fun s => negb (state_hit "" s)) states = true.
Proof. vm_compute. repeat split. Qed.

Lemma forallb_elem {A : Type} (p : A -> bool) (l : list A) (x : A) :
  forallb p l = true -> x ∈ l -> p x = true.
Proof.
  intros H Hx. rewrite forallb_forall in H. by apply H, list_elem_of_In.
Qed.

Lemma NoDup_full_names : NoDup full_names.
Proof. apply (bool_decide_unpack _). vm_compute. exact I. Qed.

Lemma full_name_canon (s : string) : s ∈ full_names -> canon s = s.
Proof.
  intros Hs. destruct table_check as (_ & H & _).
  apply (forallb_elem _ _ _ H) in Hs. apply andb_true_iff in Hs as [Hs _].
  by apply String.eqb_eq.
Qed.

Lemma full_name_length (s : string) : s ∈ full_names -> String.length s <> 2.
Proof.
  intros Hs. destruct table_check as (_ & H & _).
  apply (forallb_elem _ _ _ H) in Hs. apply andb_true_iff in Hs as [_ Hs].
  apply negb_true_iff in Hs. by apply Nat.eqb_neq.
Qed.

Lemma abbreviation_canon (a : string) : a ∈ abbreviations -> canon a = name_of a.
Proof.
  intros Ha. destruct table_check as (_ & _ & H & _).
  apply (forallb_elem _ _ _ H) in Ha. apply andb_true_iff in Ha as [Ha _].
  unfold canon. by rewrite Ha.
Qed.

Lemma name_of_abbreviation (a : string) : a ∈ abbreviations -> name_of a ∈ full_names.
Proof.
  intros Ha. destruct table_check as (_ & _ & _ & <- & _).
  apply list_elem_of_fmap. by exists a.
Qed.

Lemma elem_of_filter_bool {A : Type} (p : A -> bool) (l : list A) (x : A) :
  x ∈ List.filter p l <-> x ∈ l /\ p x = true.
Proof. by rewrite !list_elem_of_In, List.filter_In. Qed.

(** [extract_states] in closed form. *)
Lemma extract_states_closed_form (text : string) :
  extract_states text = hit_by_name text ++ hit_by_abbreviation_only text.
Proof.
  unfold extract_states, hit_by_name, hit_by_abbreviation_only.
  destruct (String.eqb_spec text "") as [->|_]; [by vm_compute|].
  destruct table_check as (Hok & _).
  rewrite (foldl_ext_in _
    (fun acc t => if state_hit text t then add_unique acc (canon t) else acc)).
  2:{ intros a x Hx. apply extract_step_canon. by apply (forallb_elem _ _ _ Hok). }
  rewrite states_split, foldl_app.
  assert (Hmap1 : forall l, l ⊆ full_names -> canon <$> l = l).
  { induction l as [|x l IH]; intros Hl; [done|]. rewrite fmap_cons. f_equal.
    - apply full_name_canon, Hl. by left.
    - apply IH. intros y Hy. apply Hl. by right. }
  assert (Hmap2 : forall l, l ⊆ abbreviations -> canon <$> l = name_of <$> l).
  { induction l as [|x l IH]; intros Hl; [done|]. rewrite !fmap_cons. f_equal.
    - apply abbreviation_canon, Hl. by left.
    - apply IH. intros y Hy. apply Hl. by right. }
  rewrite !foldl_add_unique.
  - rewrite (Hmap1 (List.filter (state_hit text) full_names)),
      (Hmap2 (List.filter (state_hit text) abbreviations)).
    + rewrite !app_nil_l.
      rewrite (filter_ext_elem _ (fun _ => true) (List.filter _ full_names)).
      2:{ intros x _. apply negb_true_iff, bool_decide_eq_false. apply not_elem_of_nil. }
      rewrite (List.forallb_filter_id (fun _ => true)).
      2:{ apply forallb_forall. reflexivity. }
      f_equal. apply filter_ext_elem. intros n Hn. f_equal.
      apply list_elem_of_fmap in Hn as [a [-> Ha]].
      apply elem_of_filter_bool in Ha as [Ha _].
      apply name_of_abbreviation in Ha.
      destruct (state_hit text (name_of a)) eqn:Hhit.
      * apply bool_decide_eq_true. apply elem_of_filter_bool. split; assumption.
      * apply bool_decide_eq_false. rewrite elem_of_filter_bool.
        intros [_ H]. congruence.
    + intros x Hx. by apply elem_of_filter_bool in Hx as [Hx _].
    + intros x Hx. by apply elem_of_filter_bool in Hx as [Hx _].
  - rewrite Hmap1 by (intros ? ?; assumption). apply NoDup_full_names.
  - rewrite Hmap2 by (intros ? ?; assumption). destruct table_check as (_ & _ & _ & -> & _).
    apply NoDup_full_names.
Qed.

Lemma filter_bool_sublist {A : Type} (p : A -> bool) (l : list A) :
  List.filter p l `sublist_of` l.
Proof.
  induction l as [|x l IH]; simpl; [done|].
  destruct (p x); [by apply sublist_skip | by apply sublist_cons].
Qed.

Lemma hit_by_name_sublist (text : string) : hit_by_name text `sublist_of` full_names.
Proof. apply filter_bool_sublist. Qed.

Lemma hit_by_abbreviation_only_sublist (text : string) :
  hit_by_abbreviation_only text `sublist_of` full_names.
Proof.
  unfold hit_by_abbreviation_only. etrans; [apply filter_bool_sublist|].
  destruct table_check as (_ & _ & _ & <- & _).
  apply fmap_sublist, filter_bool_sublist.
Qed.

Lemma abbr_to_name_key (abbr name : string) :
  abbr_to_name !! abbr = Some name -> abbr ∈ abbreviations /\ name = name_of abbr.
Proof.
  intros H. split; [|unfold name_of; by rewrite H].
  apply elem_of_list_to_map_2 in H.
  assert (Hall : forallb (fun p => bool_decide (p.1 ∈ abbreviations)) abbr_to_name_items = true)
    by (vm_compute; reflexivity).
  apply (forallb_elem _ _ _ Hall) in H. by apply bool_decide_eq_true in H.
Qed.

(** A state is in the result exactly when the text holds its full name or
    its abbreviation in one of the three forms tested. *)
Lemma elem_of_extract_states (text abbr : string) :
  abbr ∈ abbreviations ->
  name_of abbr ∈ extract_states text
  <-> state_hit text (name_of abbr) = true \/ state_hit text abbr = true.
Proof.
  intros Ha. pose proof (name_of_abbreviation _ Ha) as Hn.
  rewrite extract_states_closed_form, elem_of_app.
  unfold hit_by_name, hit_by_abbreviation_only.
  rewrite !elem_of_filter_bool, list_elem_of_fmap. split.
  - intros [[_ H] | [[b [Hb Hin]] _]]; [by left|].
    apply elem_of_filter_bool in Hin as [Hin Hhit]. right.
    assert (b = abbr) as ->; [|done].
    destruct table_check as (_ & _ & _ & Hmap & _).
    pose proof NoDup_full_names as Hnd. rewrite <- Hmap in Hnd.
    apply list_elem_of_lookup in Hin as [i Hi], Ha as [j Hj].
    assert (i = j) as ->; [|congruence].
    eapply NoDup_lookup; [exact Hnd| |]; rewrite list_lookup_fmap.
    + by rewrite Hi.
    + rewrite Hj. simpl. by rewrite Hb.
  - destruct (state_hit text (name_of abbr)) eqn:Hfull.
    + intros _. by left.
    + intros [?|Hhit]; [done|]. right. split; [|done].
      exists abbr. split; [reflexivity|]. apply elem_of_filter_bool. split; assumption.
Qed.

Lemma elem_of_hit_by_name (text x : string) :
  x ∈ hit_by_name text <-> x ∈ full_names /\ state_hit text x = true.
Proof. apply elem_of_filter_bool. Qed.

Lemma hit_by_abbreviation_only_miss (text x : string) :
  x ∈ hit_by_abbreviation_only text -> state_hit text x = false.
Proof.
  intros H. apply (elem_of_filter_bool (fun name => negb (state_hit text name))) in H.
  destruct H as [_ H]. by apply negb_true_iff in H.
Qed.

Lemma NoDup_extract_states (text : string) : NoDup (extract_states text).
Proof.
  rewrite extract_states_closed_form. apply NoDup_app. split_and!.
  - eapply sublist_NoDup; [apply NoDup_full_names | apply hit_by_name_sublist].
  - intros x Hx Hx'. apply elem_of_hit_by_name in Hx as [_ Hx].
    apply hit_by_abbreviation_only_miss in Hx'. congruence.
  - eapply sublist_NoDup; [apply NoDup_full_names | apply hit_by_abbreviation_only_sublist].
Qed.

Lemma extract_states_full_names (text s : string) :
  s ∈ extract_states text -> s ∈ full_names.
Proof.
  rewrite extract_states_closed_form, elem_of_app. intros [H|H].
  - eapply elem_of_sublist; [done | apply hit_by_name_sublist].
  - eapply elem_of_sublist; [done | apply hit_by_abbreviation_only_sublist].
Qed.

Lemma abbreviation_not_full_name (s : string) : s ∈ full_names -> s ∉ abbreviations.
Proof.
  intros Hs Ha. apply (full_name_length _ Hs).
  destruct table_check as (_ & _ & H & _).
  apply (forallb_elem _ _ _ H) in Ha. apply andb_true_iff in Ha as [Ha _].
  by apply Nat.eqb_eq.
Qed.

(** C3. Whatever the text, [extract_states] returns only names out of the 50
    canonical full names (so never an entry of two letters, never an
    abbreviation of the table), it returns no name twice, and a state of
    which the text holds the abbreviation or the full name (or both) has
    exactly one entry. *)
Theorem extract_states_canonical_once (text : string) :
  length full_names = 50
  /\ (forall s, s ∈ extract_states text ->
        s ∈ full_names /\ String.length s <> 2 /\ s ∉ abbreviations)
  /\ NoDup (extract_states text)
  /\ (forall abbr name, abbr_to_name !! abbr = Some name ->
        state_hit text abbr = true \/ state_hit text name = true ->
        count_occ String.string_dec (extract_states text) name = 1).
Proof.
  split; [reflexivity|]. split; [|split].
  - intros s Hs. apply extract_states_full_names in Hs.
    split; [assumption|]. split.
    + by apply full_name_length.
    + by apply abbreviation_not_full_name.
  - apply NoDup_extract_states.
  - intros abbr name Hlook Hhit.
    apply abbr_to_name_key in Hlook as [Ha ->].
    apply (proj1 (NoDup_count_occ' String.string_dec _)
             (proj1 (NoDup_ListNoDup _) (NoDup_extract_states text))).
    apply list_elem_of_In, elem_of_extract_states; [assumption|].
    destruct Hhit; [by right | by left].
Qed.

(** ** The order of the result *)

(** C5, as stated, fails: in "Texas beats California today" Texas is
    mentioned first (position 0, California at position 12), and the result
    lists California before Texas. *)
Lemma extract_states_not_in_text_order :
  extract_states "Texas beats California today" = ["California"; "Texas"]
  /\ mention_position "Texas beats California today" "Texas" = Some 0
  /\ mention_position "Texas beats California today" "California" = Some 12
  /\ ~ in_order_of_first_mention "Texas beats California today"
         (extract_states "Texas beats California today").
Proof.
  assert (H1 : extract_states "Texas beats California today" = ["California"; "Texas"])
    by (vm_compute; reflexivity).
  assert (H2 : mention_position "Texas beats California today" "Texas" = Some 0)
    by (vm_compute; reflexivity).
  assert (H3 : mention_position "Texas beats California today" "California" = Some 12)
    by (vm_compute; reflexivity).
  repeat split; try assumption.
  intros H. rewrite H1 in H.
  specialize (H 0 1 "California" "Texas" 12 0 eq_refl eq_refl (Nat.lt_0_succ 0) H3 H2).
  lia.
Qed.

(** C5, amended. The result follows the order of the table, not of the
    text: first the states whose full name is met, in the order of the table
    of full names, then the states of which only the abbreviation is met, in
    the order of the table of abbreviations (which is the same order of
    states). *)
Theorem extract_states_in_table_order (text : string) :
  extract_states text = hit_by_name text ++ hit_by_abbreviation_only text
  /\ hit_by_name text `sublist_of` full_names
  /\ hit_by_abbreviation_only text `sublist_of` (name_of <$> abbreviations)
  /\ name_of <$> abbreviations = full_names.
Proof.
  split; [apply extract_states_closed_form|].
  split; [apply hit_by_name_sublist|].
  destruct table_check as (_ & _ & _ & Hmap & _).
  split; [|exact Hmap]. rewrite Hmap. apply hit_by_abbreviation_only_sublist.
Qed.

(** ** The matching policy *)

(** X1. The test of [extract_states] for an entry of the table holds exactly
    when the entry stands between two spaces in the text padded with a space
    on either side, or after a space and before a comma or a period in the
    text as it is. *)
Lemma state_hit_spec (text state : string) :
  state_hit text state = true
  <-> (exists pre post, " " +:+ text +:+ " " = pre +:+ (" " +:+ state +:+ " ") +:+ post)
      \/ (exists pre post, text = pre +:+ (" " +:+ state +:+ ",") +:+ post)
      \/ (exists pre post, text = pre +:+ (" " +:+ state +:+ ".") +:+ post).
Proof.
  unfold state_hit. rewrite !orb_true_iff, !contains_spec. tauto.
Qed.

(** C4 at its failing input. A name at the very start of the text and
    followed by a comma or a period is not matched: the forms with a comma
    and with a period are looked for in the text as it is, not in the text
    padded with spaces.  The same name is matched when a space follows, and
    when it stands further on in the text before a comma. *)
Theorem start_of_text_before_comma_missed :
  state_hit "Texas, Ohio vote" "Texas" = false
  /\ extract_states "Texas, Ohio vote" = ["Ohio"]
  /\ extract_states "Texas. Ohio votes" = ["Ohio"]
  /\ extract_states "Texas and Ohio vote" = ["Ohio"; "Texas"]
  /\ extract_states "In Texas, Ohio votes" = ["Ohio"; "Texas"].
Proof. vm_compute. repeat split. Qed.

(** ** The Leaning Scorer *)

(** The two comparisons of the clamp keep any value that is a number within
    the bounds. *)
Lemma clamp_in_range (score : pyfloat) :
  score <> NaN -> in_range (py_max (py_min score (of_Z 10)) (of_Z (-10))).
Proof.
  intros Hnan. destruct score as [|[|]|q]; [done| | |]; try (vm_compute; split; discriminate).
  unfold py_min, py_max, of_Z, lt.
  destruct (Qle_bool q (inject_Z 10)) eqn:H10; simpl.
  - destruct (Qle_bool (inject_Z (-10)) q) eqn:Hm10; simpl.
    + split; by apply Qle_bool_iff.
    + split; discriminate.
  - split; discriminate.
Qed.

(** X2. Whatever the service answers, the score returned is a number from
    -10 to 10, or else not-a-number. *)
Lemma analyze_political_leaning_result (env : Env) (text : string) (w : World) :
  (analyze_political_leaning env text w).1 = NaN
  \/ in_range (analyze_political_leaning env text w).1.
Proof.
  assert (H0 : in_range (of_Z 0)) by (vm_compute; split; discriminate).
  unfold analyze_political_leaning, mbind, M_bind, mret, M_ret, enter_scorer,
    chat_completion.
  destruct (String.eqb text "" || (String.length (PyStr.strip text) <? 10)%nat);
    simpl; [by right|].
  destruct (openai_chat env _ _) as [|content]; simpl; [by right|].
  destruct (float_of_str (PyStr.strip content)) as [score|]; simpl; [|by right].
  destruct score as [|neg|q]; [by left| |]; right; by apply clamp_in_range.
Qed.

(** C6, as stated, fails: "I am in NY." has 8 characters that are not
    whitespace (and 11 in all), and the scorer sends it to the
    classification service and returns the 5 that the service answers. *)
Lemma few_non_whitespace_still_classified :
  ~ (forall (env : Env) (text : string) (w : World),
       PyStr.non_whitespace text < 10 ->
       (analyze_political_leaning env text w).1 = of_Z 0
       /\ prompts (analyze_political_leaning env text w).2 = prompts w).
Proof.
  intros H.
  destruct (H (env_replying "5") "I am in NY." world0) as [Hscore _].
  - vm_compute. lia.
  - vm_compute in Hscore. discriminate.
Qed.

(** C6, amended. A text that, once its leading and trailing whitespace is
    stripped, has fewer than 10 characters (whitespace inside it counted)
    gets the score 0, and nothing is sent to the classification service:
    the scorer only records that it was entered. *)
Theorem short_text_scores_zero_unclassified (env : Env) (text : string) (w : World) :
  String.length (PyStr.strip text) < 10 ->
  analyze_political_leaning env text w
  = (of_Z 0, MkWorld (requests w) (scored w ++ [text]) (prompts w) (console w) (artifact w)).
Proof.
  intros Hshort.
  unfold analyze_political_leaning, mbind, M_bind, mret, M_ret, enter_scorer.
  apply Nat.ltb_lt in Hshort. rewrite Hshort, orb_true_r. reflexivity.
Qed.

(** The amended C6 on a text of 5 characters between spaces. *)
Lemma short_text_scores_zero_unclassified_witness :
  String.length (PyStr.strip "  Ohio?  ") < 10
  /\ analyze_political_leaning (env_replying "5") "  Ohio?  " world0
     = (of_Z 0, MkWorld [] ["  Ohio?  "] [] [] None).
Proof.
  split; [vm_compute; lia|].
  apply (short_text_scores_zero_unclassified (env_replying "5") "  Ohio?  " world0).
  vm_compute. lia.
Defined.

(** C7 at its failing input. When the service answers "nan", [float] reads
    it as not-a-number without a [ValueError]; both comparisons of the clamp
    are false on it, so the scorer returns not-a-number, which is no number
    within the bounds.  An answer beyond the bounds, an infinity included, is
    brought back to the bound. *)
Theorem nan_reply_escapes_clamp :
  float_of_str "nan" = Some NaN
  /\ py_max (py_min NaN (of_Z 10)) (of_Z (-10)) = NaN
  /\ (analyze_political_leaning (env_replying "nan")
        "Senate passes the budget bill" world0).1 = NaN
  /\ ~ in_range NaN
  /\ (analyze_political_leaning (env_replying "250")
        "Senate passes the budget bill" world0).1 = of_Z 10
  /\ (analyze_political_leaning (env_replying "-inf")
        "Senate passes the budget bill" world0).1 = of_Z (-10).
Proof. vm_compute. repeat split; intros []. Qed.

(** ** Removing duplicates by [url] *)

Lemma foldl_dedup_step (l : list Article.t) (seen : gset string) (acc : list Article.t) :
  (foldl dedup_step (seen, acc) l).2 = acc ++ keep_unseen seen l.
Proof.
  revert seen acc. induction l as [|a l IH]; intros seen acc; simpl.
  - by rewrite app_nil_r.
  - destruct (bool_decide (Article.url a ∈ seen)); rewrite IH; [done|].
    by rewrite <- app_assoc.
Qed.

Lemma unique_by_url_keep (l : list Article.t) : unique_by_url l = keep_unseen ∅ l.
Proof. unfold unique_by_url. by rewrite foldl_dedup_step. Qed.

Lemma keep_unseen_sublist (seen : gset string) (l : list Article.t) :
  keep_unseen seen l `sublist_of` l.
Proof.
  revert seen. induction l as [|a l IH]; intros seen; simpl; [done|].
  destruct (bool_decide _); [by apply sublist_cons | by apply sublist_skip].
Qed.

(** An article is kept exactly when it stands in [l] at a place before which
    its url occurs neither in [seen] nor in [l]. *)
Lemma elem_of_keep_unseen (seen : gset string) (l : list Article.t) (a : Article.t) :
  a ∈ keep_unseen seen l
  <-> exists l1 l2, l = l1 ++ (a :: l2)
        /\ (Article.url a ∉ seen) /\ (Article.url a ∉ (Article.url <$> l1)).
Proof.
  revert seen. induction l as [|b l IH]; intros seen; simpl.
  - split; [by intros ?%elem_of_nil|]. intros (l1 & l2 & H & _). by destruct l1.
  - destruct (bool_decide (Article.url b ∈ seen)) eqn:Hb.
    + apply bool_decide_eq_true in Hb. rewrite IH. split.
      * intros (l1 & l2 & -> & Hs & Hl). exists (b :: l1), l2.
        split; [done|]. split; [done|]. rewrite fmap_cons, not_elem_of_cons.
        split; [|done]. intros Heq. apply Hs. by rewrite Heq.
      * intros (l1 & l2 & Heq & Hs & Hl). destruct l1 as [|c l1].
        -- simpl in Heq. injection Heq as -> _. done.
        -- simpl in Heq. injection Heq as -> ->. exists l1, l2.
           split; [done|]. split; [done|].
           rewrite fmap_cons, not_elem_of_cons in Hl. by destruct Hl.
    + apply bool_decide_eq_false in Hb. rewrite elem_of_cons, IH. split.
      * intros [-> | (l1 & l2 & -> & Hs & Hl)].
        -- exists [], l. split; [done|]. split; [done|]. simpl. apply not_elem_of_nil.
        -- exists (b :: l1), l2. split; [done|].
           rewrite elem_of_union, elem_of_singleton in Hs.
           split; [tauto|]. rewrite fmap_cons, not_elem_of_cons. split; [tauto|done].
      * intros (l1 & l2 & Heq & Hs & Hl). destruct l1 as [|c l1].
        -- simpl in Heq. injection Heq as -> _. by left.
        -- simpl in Heq. injection Heq as -> ->. right. exists l1, l2.
           rewrite fmap_cons, not_elem_of_cons in Hl. destruct Hl as [Hne Hl].
           split; [done|]. split; [|done].
           rewrite elem_of_union, elem_of_singleton. tauto.
Qed.

Lemma keep_unseen_urls (seen : gset string) (l : list Article.t) :
  NoDup (Article.url <$> keep_unseen seen l)
  /\ (forall u, u ∈ (Article.url <$> keep_unseen seen l) -> u ∉ seen)
  /\ (forall a, a ∈ l ->
        Article.url a ∈ seen \/ Article.url a ∈ (Article.url <$> keep_unseen seen l)).
Proof.
  revert seen. induction l as [|b l IH]; intros seen; simpl.
  - split; [constructor|]. split; [by intros ? ?%elem_of_nil | by intros ? ?%elem_of_nil].
  - destruct (bool_decide (Article.url b ∈ seen)) eqn:Hb.
    + apply bool_decide_eq_true in Hb. destruct (IH seen) as (Hnd & Hout & Hall).
      split; [done|]. split; [done|]. intros a [->|Ha]%elem_of_cons; [by left|].
      by apply Hall.
    + apply bool_decide_eq_false in Hb.
      destruct (IH ({[ Article.url b ]} ∪ seen)) as (Hnd & Hout & Hall).
      rewrite fmap_cons. split; [|split].
      * apply NoDup_cons. split; [|done]. intros Hin. apply Hout in Hin.
        apply Hin, elem_of_union. left. by apply elem_of_singleton.
      * intros u [->|Hu]%elem_of_cons; [done|]. apply Hout in Hu.
        intros Hs. apply Hu, elem_of_union. by right.
      * intros a [->|Ha]%elem_of_cons; [right; by left|].
        destruct (Hall a Ha) as [Hin|Hin].
        -- apply elem_of_union in Hin as [->%elem_of_singleton|Hin];
             [right; by left | by left].
        -- right. by right.
Qed.

(** C1. Removing duplicates keeps, of the fetched articles, exactly those at
    whose place in the list the url occurs for the first time (whatever the
    rest of a later article with the same url holds), in the order in which
    they stand in the list; so every url fetched is kept once. *)
Theorem unique_by_url_first_occurrences (all_articles : list Article.t) :
  (forall a, (a ∈ unique_by_url all_articles)
     <-> (exists l1 l2, all_articles = l1 ++ (a :: l2)
            /\ Article.url a ∉ (Article.url <$> l1)))
  /\ unique_by_url all_articles `sublist_of` all_articles
  /\ NoDup (Article.url <$> unique_by_url all_articles)
  /\ (forall a, a ∈ all_articles ->
        Article.url a ∈ (Article.url <$> unique_by_url all_articles)).
Proof.
  rewrite unique_by_url_keep. split; [|split; [|split]].
  - intros a. rewrite elem_of_keep_unseen. split.
    + intros (l1 & l2 & H & _ & Hl). by exists l1, l2.
    + intros (l1 & l2 & H & Hl). exists l1, l2. split; [done|].
      split; [apply not_elem_of_empty | done].
  - apply keep_unseen_sublist.
  - apply keep_unseen_urls.
  - intros a Ha. destruct (keep_unseen_urls ∅ all_articles) as (_ & _ & Hall).
    destruct (Hall a Ha) as [Hin|Hin]; [|done]. by apply elem_of_empty in Hin.
Qed.

(** ** The Article Fetcher *)

(** One turn of the loop. *)
Lemma fetch_pages_step (env : Env) (fuel : nat) (query : string)
    (days_back page : nat) (acc : list Article.t) (w : World) :
  fetch_pages env (S fuel) query days_back page acc w
  = if (page <=? max_pages)%nat then
      let l := page_results env query days_back page in
      if (articlesCount <=? length l)%nat
      then fetch_pages env fuel query days_back (page + 1)
             (acc ++ (transform env <$> l)) (after_requests query page 1 w)
      else (acc ++ (transform env <$> l), after_requests query page 1 w)
    else (acc, w).
Proof.
  cbn [fetch_pages]. destruct (page <=? max_pages)%nat; [|reflexivity].
  unfold mbind, M_bind, post, page_results, after_requests, mret, M_ret.
  destruct (news_api env query days_back page) as [|status_code [[|r l]|]].
  - simpl. by rewrite app_nil_r.
  - destruct (status_code =? 200)%nat; simpl; by rewrite app_nil_r.
  - destruct (status_code =? 200)%nat; cbn [negb]; [|simpl; by rewrite app_nil_r].
    rewrite Nat.ltb_antisym.
    by destruct (articlesCount <=? length (r :: l))%nat.
  - destruct (status_code =? 200)%nat; simpl; by rewrite app_nil_r.
Qed.

Lemma after_requests_0 (query : string) (page : nat) (w : World) :
  after_requests query page 0 w = w.
Proof. destruct w. unfold after_requests. simpl. by rewrite app_nil_r. Qed.

Lemma after_requests_S (query : string) (page k : nat) (w : World) :
  after_requests query (S page) k (after_requests query page 1 w)
  = after_requests query page (S k) w.
Proof. unfold after_requests. simpl. by rewrite <- app_assoc. Qed.

(** The loop requests [k] consecutive pages and returns all their results;
    each page but the last had no fewer results than the page size. *)
Lemma fetch_pages_spec (env : Env) (fuel : nat) (query : string)
    (days_back page : nat) (acc : list Article.t) (w : World) :
  exists k,
    k <= fuel
    /\ (k = 0 \/ page + k <= S max_pages)
    /\ fetch_pages env fuel query days_back page acc w
       = (acc ++ flat_map (fun p => transform env <$> page_results env query days_back p)
                   (seq page k),
          after_requests query page k w)
    /\ (forall p, page <= p < page + k - 1 ->
          articlesCount <= length (page_results env query days_back p)).
Proof.
  revert page acc w. induction fuel as [|fuel IH]; intros page acc w.
  - exists 0. split; [lia|]. split; [by left|]. split; [|intros; lia].
    rewrite after_requests_0. simpl. by rewrite app_nil_r.
  - rewrite fetch_pages_step. destruct (page <=? max_pages)%nat eqn:Hpage.
    2:{ exists 0. split; [lia|]. split; [by left|]. split; [|intros; lia].
        rewrite after_requests_0. simpl. by rewrite app_nil_r. }
    apply Nat.leb_le in Hpage. cbv zeta.
    destruct (articlesCount <=? _)%nat eqn:Hlen.
    + apply Nat.leb_le in Hlen.
      destruct (IH (page + 1)
                  (acc ++ (transform env <$> page_results env query days_back page))
                  (after_requests query page 1 w)) as (k & Hk & Hmax & Heq & Hfull).
      exists (S k). split; [lia|]. split; [right; lia|]. split.
      * rewrite Heq. replace (page + 1) with (S page) by lia.
        rewrite after_requests_S. cbn [seq flat_map]. by rewrite <- app_assoc.
      * intros p Hp. destruct (decide (p = page)) as [->|Hne]; [done|].
        apply Hfull. lia.
    + exists 1. split; [lia|]. split; [right; lia|]. split; [|intros; lia].
      cbn [seq flat_map]. by rewrite app_nil_r.
Qed.

Lemma get_news_articles_spec (env : Env) (query : string) (days_back : nat) (w : World) :
  exists pages,
    pages <= max_pages
    /\ get_news_articles env query days_back w
       = (flat_map (fun p => transform env <$> page_results env query days_back p)
            (seq 1 pages),
          after_requests query 1 pages w)
    /\ (forall p, 1 <= p < pages ->
          articlesCount <= length (page_results env query days_back p)).
Proof.
  unfold get_news_articles.
  destruct (fetch_pages_spec env (S max_pages) query days_back 1 [] w)
    as (k & _ & Hmax & Heq & Hfull).
  exists k. split; [lia|]. split; [by rewrite Heq|]. intros p Hp. apply Hfull. lia.
Qed.

Lemma get_news_articles_pages (env : Env) (query : string) (days_back : nat)
    (w : World) :
  exists pages,
    1 <= pages <= max_pages
    /\ get_news_articles env query days_back w
       = (flat_map (fun p => transform env <$> page_results env query days_back p)
            (seq 1 pages),
          after_requests query 1 pages w).
Proof.
  unfold get_news_articles. rewrite fetch_pages_step.
  change (1 <=? max_pages)%nat with true. cbv iota zeta.
  destruct (articlesCount <=? _)%nat.
  - destruct (fetch_pages_spec env max_pages query days_back (1 + 1)
                ([] ++ (transform env <$> page_results env query days_back 1))
                (after_requests query 1 1 w)) as (k & _ & Hmax & Heq & _).
    exists (S k). split; [unfold max_pages in *; lia|].
    rewrite Heq. change (1 + 1) with 2. rewrite after_requests_S.
    cbn [seq flat_map app]. done.
  - exists 1. split; [unfold max_pages; lia|]. cbn [seq flat_map app].
    by rewrite app_nil_r.
Qed.








(** ** The Enrichment Pipeline *)

(** What the scorer does to the world: it records its entry, and sends at
    most one prompt. *)
Lemma analyze_political_leaning_effect (env : Env) (text : string) (w : World) :
  exists leaning sent,
    analyze_political_leaning env text w
    = (leaning, MkWorld (requests w) (scored w ++ [text]) (prompts w ++ sent)
                  (console w) (artifact w))
    /\ length sent <= 1.
Proof.
  unfold analyze_political_leaning, mbind, M_bind, mret, M_ret, enter_scorer,
    chat_completion.
  destruct (String.eqb text "" || (String.length (PyStr.strip text) <? 10)%nat).
  - exists (of_Z 0), []. simpl. rewrite app_nil_r. split; [done|lia].
  - cbn [prompts requests scored console artifact].
    destruct (openai_chat env _ _) as [|content].
    + exists (of_Z 0), [PyStr.take 800 text]. split; [done|simpl; lia].
    + destruct (float_of_str (PyStr.strip content)) as [score|].
      * eexists _, [PyStr.take 800 text]. split; [done|simpl; lia].
      * exists (of_Z 0), [PyStr.take 800 text]. split; [done|simpl; lia].
Qed.

Lemma process_article_eq (env : Env) (i n : nat) (article : Article.t)
    (acc : list Row.t) (w : World) :
  process_article env i n article acc w
  = match extract_states (full_text_of article) with
    | [] => (acc, progress i n w)
    | _ =>
        (acc ++ (make_row article
                   (analyze_political_leaning env (full_text_of article) (progress i n w)).1
                 <$> extract_states (full_text_of article)),
         (analyze_political_leaning env (full_text_of article) (progress i n w)).2)
    end.
Proof.
  unfold process_article, progress, mbind, M_bind, mret, M_ret.
  destruct (i mod 5 =? 0)%nat.
  - cbn [print snd]. destruct (extract_states (full_text_of article)); [done|].
    by destruct (analyze_political_leaning env _ _).
  - destruct (extract_states (full_text_of article)); [done|].
    by destruct (analyze_political_leaning env _ _).
Qed.

Lemma progress_effect (i n : nat) (w : World) :
  exists msgs,
    progress i n w
    = MkWorld (requests w) (scored w) (prompts w) (console w ++ msgs) (artifact w).
Proof.
  unfold progress. destruct (i mod 5 =? 0)%nat.
  - by eexists [_].
  - exists []. destruct w. simpl. by rewrite app_nil_r.
Qed.

Lemma make_row_states (article : Article.t) (leaning : pyfloat) (l : list string) :
  Row.state <$> (make_row article leaning <$> l) = l.
Proof. induction l as [|x l IH]; [done|]. rewrite !fmap_cons, IH. done. Qed.

(** The loop over the unique articles enters the scorer once for each
    article that names a state, with the text of that article, and leaves the
    artifact alone. *)
Lemma process_articles_effect (env : Env) (i n : nat) (l : list Article.t)
    (acc : list Row.t) (w : World) :
  scored (process_articles env i n l acc w).2
  = scored w ++ (full_text_of <$> List.filter mentions_a_state l)
  /\ Row.state <$> (process_articles env i n l acc w).1
     = (Row.state <$> acc) ++ flat_map (fun a => extract_states (full_text_of a)) l
  /\ artifact (process_articles env i n l acc w).2 = artifact w
  /\ exists msgs, console (process_articles env i n l acc w).2 = console w ++ msgs.
Proof.
  revert i acc w. induction l as [|a l IH]; intros i acc w.
  - simpl. rewrite !app_nil_r. split; [done|]. split; [done|]. split; [done|].
    exists []. by rewrite app_nil_r.
  - cbn [process_articles]. unfold mbind, M_bind.
    destruct (process_article env i n a acc w) as [acc' w'] eqn:Hstep.
    rewrite process_article_eq in Hstep.
    destruct (IH (S i) acc' w') as (Hscored & Hstates & Hart & msgs & Hconsole).
    rewrite Hscored, Hstates, Hart, Hconsole.
    destruct (progress_effect i n w) as (msgs0 & Hprog).
    cbn [List.filter flat_map]. unfold mentions_a_state.
    destruct (extract_states (full_text_of a)) as [|s states] eqn:Hex.
    + injection Hstep as <- <-. rewrite Hprog. simpl.
      split; [done|]. split; [done|]. split; [done|].
      exists (msgs0 ++ msgs). by rewrite app_assoc.
    + destruct (analyze_political_leaning_effect env (full_text_of a) (progress i n w))
        as (leaning & sent & Heq & _).
      rewrite Heq in Hstep. injection Hstep as <- <-. rewrite Hprog.
      cbn [scored artifact console fst snd]. rewrite fmap_cons, <- app_assoc.
      split; [done|]. split.
      * change (make_row a leaning s :: list_fmap _ _ (make_row a leaning) states)
          with (make_row a leaning <$> (s :: states)).
        by rewrite fmap_app, make_row_states, <- app_assoc.
      * split; [done|]. exists (msgs0 ++ msgs). by rewrite app_assoc.
Qed.


Lemma fetch_topics_effect (env : Env) (ts : list string) (acc : list Article.t)
    (w : World) :
  artifact (fetch_topics env ts acc w).2 = artifact w
  /\ exists msgs, console (fetch_topics env ts acc w).2 = console w ++ msgs.
Proof.
  revert acc w. induction ts as [|topic ts IH]; intros acc w.
  - simpl. split; [done|]. exists []. by rewrite app_nil_r.
  - cbn [fetch_topics]. unfold mbind, M_bind. cbn [print].
    destruct (get_news_articles_spec env topic 30
                (MkWorld (requests w) (scored w) (prompts w)
                   (console w ++ [FetchingTopic topic]) (artifact w)))
      as (pages & _ & Heq & _).
    rewrite Heq. unfold after_requests. cbn [requests scored prompts console artifact].
    destruct (flat_map _ _) as [|a arts]; cbn [print].
    + match goal with |- context [fetch_topics env ts acc ?w1] =>
        destruct (IH acc w1) as (Hart & msgs & Hcon) end.
      rewrite Hart, Hcon. cbn [artifact console]. split; [done|].
      eexists. rewrite <- !app_assoc. reflexivity.
    + match goal with |- context [fetch_topics env ts ?acc1 ?w1] =>
        destruct (IH acc1 w1) as (Hart & msgs & Hcon) end.
      rewrite Hart, Hcon. cbn [artifact console]. split; [done|].
      eexists. rewrite <- !app_assoc. reflexivity.
Qed.

(** C9. A run ends in one of three ways.  When no article was fetched for
    any topic, or no fetched article names a state, the table returned is
    empty, the artifact is left as it was, and the last report says which of
    the two it was.  Otherwise the artifact holds the whole table returned,
    whatever it held before, and the last report is that of the save. *)
Theorem empty_table_not_written (env : Env) (w : World) :
  let out := compile_news_political_data env w in
  exists msgs,
    console out.2 = console w ++ msgs
    /\ (out.1 = [] ->
          artifact out.2 = artifact w
          /\ (((fetch_topics env topics [] w).1 = []
               /\ last msgs = Some NoArticlesFetched)
              \/ ((fetch_topics env topics [] w).1 <> []
                  /\ last msgs = Some NoStateMentions)))
    /\ (out.1 <> [] ->
          artifact out.2 = Some out.1
          /\ last msgs = Some (SavedProcessed (length out.1))).
Proof.
  intros out. subst out. unfold compile_news_political_data, mbind, M_bind.
  destruct (fetch_topics_effect env topics [] w) as (Hart1 & msgs1 & Hcon1).
  destruct (fetch_topics env topics [] w) as [all_articles w1].
  cbn [fst snd] in *. destruct all_articles as [|a all_articles].
  - cbn [print mret M_ret fst snd console artifact]. rewrite Hcon1, Hart1.
    exists (msgs1 ++ [NoArticlesFetched]). rewrite app_assoc.
    split; [done|]. split; [|done]. intros _. split; [done|]. left.
    split; [done|]. apply last_snoc.
  - cbn [print]. set (unique_articles := unique_by_url (a :: all_articles)).
    set (w2 := MkWorld _ _ _ _ _).
    destruct (process_articles_effect env 0 (length unique_articles) unique_articles [] w2)
      as (_ & _ & Hart3 & msgs3 & Hcon3).
    destruct (process_articles env 0 (length unique_articles) unique_articles [] w2)
      as [df w3].
    cbn [fst snd] in *. subst w2. cbn [console artifact] in *.
    destruct df as [|r df].
    + cbn [print mret M_ret fst snd console artifact]. rewrite Hcon3, Hart3, Hcon1, Hart1.
      exists (msgs1 ++ [ProcessingUnique (length unique_articles)] ++ msgs3
              ++ [NoStateMentions]).
      split; [by rewrite <- !app_assoc|]. split; [|done]. intros _.
      split; [done|]. right. split; [done|].
      rewrite !app_assoc. apply last_snoc.
    + cbn [to_csv print mret M_ret fst snd console artifact].
      rewrite Hcon3, Hcon1.
      exists (msgs1 ++ [ProcessingUnique (length unique_articles)] ++ msgs3
              ++ [SavedProcessed (length (r :: df))]).
      split; [by rewrite <- !app_assoc|]. split; [done|]. intros _.
      split; [done|]. rewrite !app_assoc. apply last_snoc.
Qed.

(** * Further properties *)

(** ** The Article Fetcher: where pagination ends *)










Lemma fetch_pages_fuel (env : Env) (fuel : nat) :
  forall (query : string) (days_back page : nat) (acc : list Article.t) (w : World),
    S max_pages <= page + fuel ->
    fetch_pages env (S fuel) query days_back page acc w
    = fetch_pages env fuel query days_back page acc w.
Proof.
  induction fuel as [|fuel IH]; intros query days_back page acc w Hfuel.
  - rewrite fetch_pages_step. by rewrite (proj2 (Nat.leb_gt _ _)) by lia.
  - rewrite (fetch_pages_step env (S fuel)), (fetch_pages_step env fuel).
    destruct (page <=? max_pages)%nat; [|done]. cbv zeta.
    destruct (articlesCount <=? _)%nat; [|done].
    apply IH. lia.
Qed.

(** X6. The loop of [get_news_articles] needs no more than its 10 turns and
    the closing test: given room for any number of further turns it returns
    the same articles and leaves the same world. *)
Theorem more_turns_change_nothing (env : Env) (query : string) (days_back : nat)
    (w : World) (n : nat) :
  fetch_pages env (S max_pages + n) query days_back 1 [] w
  = get_news_articles env query days_back w.
Proof.
  unfold get_news_articles. induction n as [|n IH].
  - by rewrite Nat.add_0_r.
  - rewrite <- IH. replace (S max_pages + S n) with (S (S max_pages + n)) by lia.
    apply fetch_pages_fuel. lia.
Qed.

(** ** The Leaning Scorer: what is sent and what comes back *)

Lemma take_length (n : nat) (s : string) : String.length (PyStr.take n s) <= n.
Proof.
  unfold PyStr.take. revert s. induction n as [|n IH]; intros [|c s]; simpl; try lia.
  specialize (IH s). lia.
Qed.

Lemma take_all (n : nat) (s : string) : String.length s <= n -> PyStr.take n s = s.
Proof.
  unfold PyStr.take. revert s. induction n as [|n IH]; intros [|c s]; simpl; try done.
  - lia.
  - intros H. f_equal. apply IH. lia.
Qed.

Lemma take_prefix (n : nat) (s : string) : String.prefix (PyStr.take n s) s = true.
Proof.
  unfold PyStr.take. revert s. induction n as [|n IH]; intros [|c s]; simpl; try done.
  rewrite IH. by destruct (Ascii.ascii_dec c c).
Qed.

(** The scorer past its guard. *)
Lemma analyze_political_leaning_long (env : Env) (text : string) (w : World) :
  10 <= String.length (PyStr.strip text) ->
  analyze_political_leaning env text w
  = (match openai_chat env (length (prompts w)) (PyStr.take 800 text) with
     | ChatFailed => of_Z 0
     | ChatReply content =>
         match float_of_str (PyStr.strip content) with
         | Some score => py_max (py_min score (of_Z 10)) (of_Z (-10))
         | None => of_Z 0
         end
     end,
     MkWorld (requests w) (scored w ++ [text]) (prompts w ++ [PyStr.take 800 text])
       (console w) (artifact w)).
Proof.
  intros Hlong.
  unfold analyze_political_leaning, mbind, M_bind, mret, M_ret, enter_scorer,
    chat_completion.
  assert (String.eqb text "" = false) as ->.
  { apply String.eqb_neq. intros ->. simpl in Hlong. lia. }
  rewrite (proj2 (Nat.ltb_ge _ _)) by lia.
  cbn [orb prompts requests scored console artifact].
  destruct (openai_chat env _ _) as [|content]; [done|].
  by destruct (float_of_str (PyStr.strip content)).
Qed.

(** X7. A text of 10 characters or more once stripped is sent to the
    classification service exactly once, and what is sent is the first 800
    characters of the text as it came (the whole text when it has no more):
    never more than 800 characters.  Nothing else changes but the record of
    the entry into the scorer. *)
Theorem long_text_sends_first_800_characters (env : Env) (text : string) (w : World) :
  10 <= String.length (PyStr.strip text) ->
  (analyze_political_leaning env text w).2
  = MkWorld (requests w) (scored w ++ [text]) (prompts w ++ [PyStr.take 800 text])
      (console w) (artifact w)
  /\ String.length (PyStr.take 800 text) <= 800
  /\ String.prefix (PyStr.take 800 text) text = true
  /\ (String.length text <= 800 -> PyStr.take 800 text = text).
Proof.
  intros Hlong. rewrite analyze_political_leaning_long by done.
  split; [done|]. split; [apply take_length|]. split; [apply take_prefix|].
  apply take_all.
Qed.

(** X7 on a text of 29 characters. *)
Lemma long_text_sends_first_800_characters_witness :
  10 <= String.length (PyStr.strip "Senate passes the budget bill")
  /\ prompts (analyze_political_leaning (env_replying "2")
                "Senate passes the budget bill" world0).2
     = ["Senate passes the budget bill"].
Proof.
  assert (H : 10 <= String.length (PyStr.strip "Senate passes the budget bill"))
    by (vm_compute; lia).
  split; [exact H|].
  destruct (long_text_sends_first_800_characters (env_replying "2")
              "Senate passes the budget bill" world0 H) as (Hw & _ & _ & _).
  rewrite Hw. reflexivity.
Defined.

(** X8. A failure of the classification call, or a reply that is not a
    number, is not passed on: the score is 0. *)
Theorem unusable_reply_scores_zero (env : Env) (text : string) (w : World) :
  10 <= String.length (PyStr.strip text) ->
  reply_unusable (openai_chat env (length (prompts w)) (PyStr.take 800 text)) ->
  (analyze_political_leaning env text w).1 = of_Z 0.
Proof.
  intros Hlong Hbad. rewrite analyze_political_leaning_long by done. cbn [fst].
  destruct (openai_chat env _ _) as [|content]; [done|].
  simpl in Hbad. by rewrite Hbad.
Qed.

(** X8 on a reply in words. *)
Lemma unusable_reply_scores_zero_witness :
  10 <= String.length (PyStr.strip "Senate passes the budget bill")
  /\ reply_unusable (ChatReply "Slightly left-leaning")
  /\ (analyze_political_leaning (env_replying "Slightly left-leaning")
        "Senate passes the budget bill" world0).1 = of_Z 0.
Proof.
  assert (H : 10 <= String.length (PyStr.strip "Senate passes the budget bill"))
    by (vm_compute; lia).
  assert (Hbad : reply_unusable (ChatReply "Slightly left-leaning"))
    by (vm_compute; reflexivity).
  split; [exact H|]. split; [exact Hbad|].
  apply (unusable_reply_scores_zero (env_replying "Slightly left-leaning")
           "Senate passes the budget bill" world0 H).
  exact Hbad.
Defined.

(** X9. A reply that reads as a finite number is returned as it is when it
    lies from -10 to 10, and as the nearer bound when it lies outside. *)
Theorem numeric_reply_clamped (env : Env) (text : string) (w : World)
    (content : string) (q : Q) :
  10 <= String.length (PyStr.strip text) ->
  openai_chat env (length (prompts w)) (PyStr.take 800 text) = ChatReply content ->
  float_of_str (PyStr.strip content) = Some (Fin q) ->
  ((-10 <= q /\ q <= 10)%Q -> (analyze_political_leaning env text w).1 = Fin q)
  /\ ((10 < q)%Q -> (analyze_political_leaning env text w).1 = of_Z 10)
  /\ ((q < -10)%Q -> (analyze_political_leaning env text w).1 = of_Z (-10)).
Proof.
  intros Hlong Hreply Hparse. rewrite analyze_political_leaning_long by done.
  rewrite Hreply, Hparse. cbn [fst]. unfold py_min, py_max, of_Z, lt.
  assert (Hten : (inject_Z 10 == 10)%Q) by reflexivity.
  assert (Hmten : (inject_Z (-10) == -10)%Q) by reflexivity.
  split; [|split].
  - intros [Hlo Hhi]. rewrite (proj2 (Qle_bool_iff q (inject_Z 10))) by by rewrite Hten.
    cbn [negb]. by rewrite (proj2 (Qle_bool_iff (inject_Z (-10)) q)) by by rewrite Hmten.
  - intros Hgt. destruct (Qle_bool q (inject_Z 10)) eqn:Hle.
    + apply Qle_bool_iff in Hle. rewrite Hten in Hle.
      exfalso. by apply (Qlt_not_le _ _ Hgt).
    + cbn [negb]. reflexivity.
  - intros Hlt. assert (Hle : Qle_bool q (inject_Z 10) = true).
    { apply Qle_bool_iff. rewrite Hten. apply Qlt_le_weak.
      eapply Qlt_trans; [exact Hlt|]. reflexivity. }
    rewrite Hle. cbn [negb].
    destruct (Qle_bool (inject_Z (-10)) q) eqn:Hge; [|reflexivity].
    apply Qle_bool_iff in Hge. rewrite Hmten in Hge.
    exfalso. by apply (Qlt_not_le _ _ Hlt).
Qed.

(** X9 on the replies "3.5" and "42". *)
Lemma numeric_reply_clamped_witness :
  (analyze_political_leaning (env_replying "3.5")
     "Senate passes the budget bill" world0).1 = Fin 3.5
  /\ (analyze_political_leaning (env_replying "42")
        "Senate passes the budget bill" world0).1 = of_Z 10.
Proof.
  assert (H : 10 <= String.length (PyStr.strip "Senate passes the budget bill"))
    by (vm_compute; lia).
  split.
  - apply (numeric_reply_clamped (env_replying "3.5") "Senate passes the budget bill"
             world0 "3.5" 3.5 H eq_refl eq_refl).
    split; discriminate.
  - apply (numeric_reply_clamped (env_replying "42") "Senate passes the budget bill"
             world0 "42" 42 H eq_refl eq_refl).
    reflexivity.
Defined.

(** ** Removing duplicates: repeated and combined lists *)

Lemma keep_unseen_distinct (seen : gset string) (l : list Article.t) :
  NoDup (Article.url <$> l) ->
  (forall a, a ∈ l -> Article.url a ∉ seen) ->
  keep_unseen seen l = l.
Proof.
  revert seen. induction l as [|a l IH]; intros seen Hnd Hout; [done|].
  rewrite fmap_cons in Hnd. apply NoDup_cons in Hnd as [Hnotin Hnd].
  cbn [keep_unseen]. rewrite bool_decide_eq_false_2 by (apply Hout; by left).
  f_equal. apply IH; [done|]. intros b Hb.
  rewrite elem_of_union, elem_of_singleton. intros [Heq|Hin].
  - apply Hnotin. rewrite <- Heq. apply list_elem_of_fmap. by exists b.
  - revert Hin. apply Hout. by right.
Qed.

Lemma foldl_dedup_step_seen (l : list Article.t) (seen : gset string)
    (acc : list Article.t) :
  (foldl dedup_step (seen, acc) l).1 = list_to_set (Article.url <$> l) ∪ seen.
Proof.
  revert seen acc. induction l as [|a l IH]; intros seen acc.
  - simpl. apply set_eq. intros x. rewrite elem_of_union, elem_of_empty. tauto.
  - cbn [foldl dedup_step]. rewrite fmap_cons, list_to_set_cons.
    destruct (bool_decide (Article.url a ∈ seen)) eqn:Hin; rewrite IH;
      apply set_eq; intros x; rewrite !elem_of_union, elem_of_singleton.
    + apply bool_decide_eq_true in Hin. split; [tauto|].
      intros [[-> | ?] | ?]; tauto.
    + tauto.
Qed.

Lemma keep_unseen_union (seen more : gset string) (l : list Article.t) :
  keep_unseen (more ∪ seen) l
  = List.filter (fun a => negb (bool_decide (Article.url a ∈ more))) (keep_unseen seen l).
Proof.
  revert seen. induction l as [|a l IH]; intros seen; [done|]. cbn [keep_unseen].
  destruct (bool_decide (Article.url a ∈ seen)) eqn:Hseen.
  - apply bool_decide_eq_true in Hseen.
    rewrite bool_decide_eq_true_2 by (apply elem_of_union; by right). apply IH.
  - apply bool_decide_eq_false in Hseen. cbn [List.filter].
    destruct (bool_decide (Article.url a ∈ more)) eqn:Hmore.
    + apply bool_decide_eq_true in Hmore.
      rewrite bool_decide_eq_true_2 by (apply elem_of_union; by left). cbn [negb].
      rewrite <- IH. f_equal. apply set_eq. intros x.
      rewrite !elem_of_union, elem_of_singleton. split; [tauto|].
      intros [? | [-> | ?]]; tauto.
    + apply bool_decide_eq_false in Hmore.
      rewrite bool_decide_eq_false_2 by (rewrite elem_of_union; tauto).
      cbn [negb]. f_equal. rewrite <- IH. f_equal. apply set_eq. intros x.
      rewrite !elem_of_union, elem_of_singleton. tauto.
Qed.

(** X10. Removing duplicates is idempotent, and it leaves a list as it is
    exactly when the urls of the list are pairwise different. *)
Theorem unique_by_url_idempotent (all_articles : list Article.t) :
  unique_by_url (unique_by_url all_articles) = unique_by_url all_articles
  /\ (unique_by_url all_articles = all_articles
      <-> NoDup (Article.url <$> all_articles)).
Proof.
  assert (Hid : forall l, NoDup (Article.url <$> l) -> unique_by_url l = l).
  { intros l Hnd. rewrite unique_by_url_keep. apply keep_unseen_distinct; [done|].
    intros a _. apply not_elem_of_empty. }
  assert (Hnd : forall l, NoDup (Article.url <$> unique_by_url l)).
  { intros l. rewrite unique_by_url_keep. apply keep_unseen_urls. }
  split; [by apply Hid|]. split; [|apply Hid].
  intros Heq. rewrite <- Heq. apply Hnd.
Qed.

(** X11. Of two lists fetched one after the other, the first wins: the
    unique articles of the two together are the unique articles of the
    first, followed by those unique articles of the second whose url the
    first list does not hold. *)
Theorem unique_by_url_earlier_list_wins (l1 l2 : list Article.t) :
  unique_by_url (l1 ++ l2)
  = unique_by_url l1
    ++ List.filter (fun a => negb (bool_decide (Article.url a ∈ (Article.url <$> l1))))
         (unique_by_url l2).
Proof.
  unfold unique_by_url at 1. rewrite foldl_app.
  destruct (foldl dedup_step (∅, []) l1) as [seen acc] eqn:Hl1.
  rewrite foldl_dedup_step.
  assert (Hacc : acc = unique_by_url l1) by (unfold unique_by_url; by rewrite Hl1).
  assert (Hseen : seen = list_to_set (Article.url <$> l1) ∪ ∅).
  { rewrite <- foldl_dedup_step_seen with (acc := []). by rewrite Hl1. }
  rewrite Hacc, Hseen, keep_unseen_union, <- unique_by_url_keep. f_equal.
  apply filter_ext_elem. intros a _. f_equal. apply bool_decide_ext.
  apply elem_of_list_to_set.
Qed.

(** ** The Enrichment Pipeline: the table as a whole *)

Lemma score_nan_or_in_range (env : Env) (text : string) (w : World) :
  let leaning := (analyze_political_leaning env text w).1 in
  leaning = NaN \/ in_range leaning.
Proof.
  assert (H0 : in_range (of_Z 0)) by (vm_compute; split; discriminate).
  cbv zeta.
  destruct (analyze_political_leaning_effect env text w) as (l0 & sent & Heq & _).
  unfold analyze_political_leaning, mbind, M_bind, mret, M_ret, enter_scorer,
    chat_completion.
  destruct (String.eqb text "" || (String.length (PyStr.strip text) <? 10)%nat);
    cbn [fst]; [by right|].
  cbn [prompts requests scored console artifact].
  destruct (openai_chat env _ _) as [|content]; cbn [fst]; [by right|].
  destruct (float_of_str (PyStr.strip content)) as [[|neg|q]|]; cbn [fst].
  - by left.
  - right. by apply clamp_in_range.
  - right. by apply clamp_in_range.
  - by right.
Qed.

Lemma rows_of_cons (a : Article.t) (leaning : pyfloat)
    (ps : list (Article.t * pyfloat)) :
  rows_of ((a, leaning) :: ps)
  = (make_row a leaning <$> extract_states (full_text_of a)) ++ rows_of ps.
Proof. reflexivity. Qed.

(** The loop over the unique articles appends the rows of the articles, each
    article with one score. *)
Lemma process_articles_rows (env : Env) (l : list Article.t) :
  forall (i n : nat) (acc : list Row.t) (w : World),
  exists scores,
    length scores = length l
    /\ (process_articles env i n l acc w).1 = acc ++ rows_of (zip l scores)
    /\ Forall (fun leaning => leaning = NaN \/ in_range leaning) scores.
Proof.
  induction l as [|a l IH]; intros i n acc w.
  - exists []. split; [done|]. split; [|done]. simpl. by rewrite app_nil_r.
  - cbn [process_articles]. unfold mbind, M_bind.
    destruct (process_article env i n a acc w) as [acc' w'] eqn:Hstep.
    rewrite process_article_eq in Hstep.
    destruct (IH (S i) n acc' w') as (scores & Hlen & Hrows & Hok).
    destruct (extract_states (full_text_of a)) as [|s states] eqn:Hex.
    + injection Hstep as <- <-. exists (of_Z 0 :: scores).
      split; [simpl; by rewrite Hlen|]. split.
      * rewrite Hrows. cbn [zip zip_with]. rewrite rows_of_cons, Hex. done.
      * constructor; [|done]. right. vm_compute. split; discriminate.
    + injection Hstep as <- <-.
      exists ((analyze_political_leaning env (full_text_of a) (progress i n w)).1 :: scores).
      split; [simpl; by rewrite Hlen|]. split.
      * rewrite Hrows. cbn [zip zip_with]. rewrite rows_of_cons, Hex.
        by rewrite <- app_assoc.
      * constructor; [|done]. apply score_nan_or_in_range.
Qed.

(** The table of a run is made of the rows of the unique articles. *)
Lemma compile_rows (env : Env) (w : World) :
  exists scores,
    length scores = length (unique_by_url (fetch_topics env topics [] w).1)
    /\ (compile_news_political_data env w).1
       = rows_of (zip (unique_by_url (fetch_topics env topics [] w).1) scores)
    /\ Forall (fun leaning => leaning = NaN \/ in_range leaning) scores.
Proof.
  unfold compile_news_political_data, mbind, M_bind.
  destruct (fetch_topics env topics [] w) as [all_articles w1].
  cbn [fst]. destruct all_articles as [|a all_articles].
  - exists []. done.
  - cbn [print]. set (unique_articles := unique_by_url (a :: all_articles)).
    set (w2 := MkWorld _ _ _ _ _).
    destruct (process_articles_rows env unique_articles 0 (length unique_articles) [] w2)
      as (scores & Hlen & Hrows & Hok).
    exists scores. split; [done|]. split; [|done].
    destruct (process_articles env 0 (length unique_articles) unique_articles [] w2)
      as [df w3].
    cbn [fst] in Hrows. subst df. cbn [app].
    by destruct (rows_of (zip unique_articles scores)).
Qed.

Lemma elem_of_rows_of (ps : list (Article.t * pyfloat)) (r : Row.t) :
  r ∈ rows_of ps
  <-> exists a leaning s,
        (a, leaning) ∈ ps /\ s ∈ extract_states (full_text_of a)
        /\ r = make_row a leaning s.
Proof.
  unfold rows_of. rewrite list_elem_of_In, in_flat_map. split.
  - intros ([a leaning] & Hin & Hr). apply list_elem_of_In in Hin, Hr.
    apply list_elem_of_fmap in Hr as (s & -> & Hs). by exists a, leaning, s.
  - intros (a & leaning & s & Hin & Hs & ->). exists (a, leaning).
    split; [by apply list_elem_of_In|]. apply list_elem_of_In, list_elem_of_fmap.
    by exists s.
Qed.

Lemma elem_of_zip_pair {A B : Type} (l : list A) (k : list B) (x : A) (y : B) :
  (x, y) ∈ zip l k -> x ∈ l /\ y ∈ k.
Proof.
  revert k. induction l as [|a l IH]; intros [|b k]; simpl;
    try (by intros ?%elem_of_nil).
  intros [Heq | Hin]%elem_of_cons.
  - injection Heq as -> ->. split; by left.
  - destruct (IH k Hin). split; by right.
Qed.

Lemma elem_of_zip_left {A B : Type} (l : list A) (k : list B) (x : A) :
  length k = length l -> x ∈ l -> exists y, (x, y) ∈ zip l k.
Proof.
  revert k. induction l as [|a l IH]; intros [|b k] Hlen; simpl in *;
    try (by intros ?%elem_of_nil); try lia.
  intros [-> | Hin]%elem_of_cons.
  - exists b. by left.
  - destruct (IH k ltac:(lia) Hin) as [y Hy]. exists y. by right.
Qed.

(** X12. Every row of the table of a run has one of the 50 full names as
    its state and a score that is a number from -10 to 10 or not-a-number,
    and it copies the title, url, source and date of a fetched article whose
    text names that state.  And every unique fetched article has a row for
    each state that its text names. *)
Theorem table_rows_from_fetched_articles (env : Env) (w : World) :
  let fetched := (fetch_topics env topics [] w).1 in
  let table := (compile_news_political_data env w).1 in
  (forall r, r ∈ table ->
     Row.state r ∈ full_names
     /\ (Row.political_leaning r = NaN \/ in_range (Row.political_leaning r))
     /\ exists a, a ∈ fetched
          /\ Row.state r ∈ extract_states (full_text_of a)
          /\ r = make_row a (Row.political_leaning r) (Row.state r))
  /\ (forall a s, a ∈ unique_by_url fetched ->
        s ∈ extract_states (full_text_of a) ->
        exists r, r ∈ table /\ Row.url r = Article.url a /\ Row.state r = s).
Proof.
  intros fetched table. subst table.
  destruct (compile_rows env w) as (scores & Hlen & -> & Hok). fold fetched.
  split.
  - intros r Hr. apply elem_of_rows_of in Hr as (a & leaning & s & Hin & Hs & ->).
    apply elem_of_zip_pair in Hin as [Ha Hl]. cbn [make_row Row.state Row.political_leaning].
    split; [by apply extract_states_full_names in Hs|].
    split; [by apply (proj1 (Forall_forall _ _) Hok)|].
    exists a. split; [|done].
    rewrite unique_by_url_keep in Ha.
    eapply elem_of_sublist; [exact Ha | apply keep_unseen_sublist].
  - intros a s Ha Hs.
    destruct (elem_of_zip_left _ scores a Hlen Ha) as [leaning Hin].
    exists (make_row a leaning s). split; [|done].
    apply elem_of_rows_of. by exists a, leaning, s.
Qed.

Lemma NoDup_fmap_elem_inj {A B : Type} (f : A -> B) (l : list A) (x y : A) :
  NoDup (f <$> l) -> x ∈ l -> y ∈ l -> f x = f y -> x = y.
Proof.
  induction l as [|a l IH]; [by intros _ ?%elem_of_nil|].
  rewrite fmap_cons. intros [Hnotin Hnd]%NoDup_cons.
  intros [-> | Hx]%elem_of_cons [-> | Hy]%elem_of_cons Heq; [done| | |by apply IH].
  - exfalso. apply Hnotin. rewrite Heq. apply list_elem_of_fmap. by exists y.
  - exfalso. apply Hnotin. rewrite <- Heq. apply list_elem_of_fmap. by exists x.
Qed.

Lemma NoDup_row_keys (ps : list (Article.t * pyfloat)) :
  NoDup ((fun p => Article.url p.1) <$> ps) -> NoDup (row_key <$> rows_of ps).
Proof.
  induction ps as [|[a leaning] ps IH]; [constructor|].
  rewrite fmap_cons. intros [Hnotin Hnd]%NoDup_cons.
  rewrite rows_of_cons, fmap_app. apply NoDup_app. split; [|split].
  - rewrite <- list_fmap_compose. apply NoDup_fmap_2; [|apply NoDup_extract_states].
    intros s1 s2 Heq. by injection Heq.
  - intros k Hk Hk'. apply Hnotin.
    apply list_elem_of_fmap in Hk as (r & -> & Hr).
    apply list_elem_of_fmap in Hr as (s & -> & Hs).
    apply list_elem_of_fmap in Hk' as (r' & Heq & Hr').
    apply elem_of_rows_of in Hr' as (a' & leaning' & s' & Hin & Hs' & ->).
    injection Heq as Hurl _. cbn [fst]. rewrite Hurl.
    apply list_elem_of_fmap. by exists (a', leaning').
  - by apply IH.
Qed.

(** X13. The table of a run has one row for an article and a state, never
    two; and the rows that share a url come from one article: they share
    the score, the title, the source and the date. *)
Theorem one_row_per_article_and_state (env : Env) (w : World) :
  let table := (compile_news_political_data env w).1 in
  NoDup (row_key <$> table)
  /\ (forall r1 r2, r1 ∈ table -> r2 ∈ table -> Row.url r1 = Row.url r2 ->
        Row.political_leaning r1 = Row.political_leaning r2
        /\ Row.title r1 = Row.title r2
        /\ Row.source r1 = Row.source r2
        /\ Row.date r1 = Row.date r2).
Proof.
  intros table. subst table.
  destruct (compile_rows env w) as (scores & Hlen & -> & _).
  set (unique_articles := unique_by_url (fetch_topics env topics [] w).1) in *.
  assert (Hnd : NoDup ((fun p => Article.url p.1) <$> zip unique_articles scores)).
  { change (fun p : Article.t * pyfloat => Article.url p.1) with (Article.url ∘ (@fst Article.t pyfloat)).
    rewrite list_fmap_compose, fst_zip by lia.
    subst unique_articles. rewrite unique_by_url_keep. apply keep_unseen_urls. }
  split; [by apply NoDup_row_keys|].
  intros r1 r2 Hr1 Hr2 Hurl.
  apply elem_of_rows_of in Hr1 as (a1 & l1 & s1 & Hin1 & _ & ->).
  apply elem_of_rows_of in Hr2 as (a2 & l2 & s2 & Hin2 & _ & ->).
  cbn [make_row Row.url] in Hurl.
  assert (Heq : (a1, l1) = (a2, l2)).
  { by apply (NoDup_fmap_elem_inj (fun p => Article.url p.1) _ _ _ Hnd). }
  injection Heq as -> ->. done.
Qed.

(** ** The Enrichment Pipeline: what a run asks of the two services *)

Lemma fetch_topics_requests (env : Env) (ts : list string) :
  forall (acc : list Article.t) (w : World),
  exists reqs,
    requests (fetch_topics env ts acc w).2 = requests w ++ reqs
    /\ scored (fetch_topics env ts acc w).2 = scored w
    /\ prompts (fetch_topics env ts acc w).2 = prompts w
    /\ length ts <= length reqs <= length ts * max_pages
    /\ (forall t, t ∈ ts -> (t, 1) ∈ reqs)
    /\ (forall q p, (q, p) ∈ reqs -> q ∈ ts /\ 1 <= p <= max_pages).
Proof.
  induction ts as [|topic ts IH]; intros acc w.
  - exists []. cbn [fetch_topics]. unfold mret, M_ret. cbn [snd]. rewrite app_nil_r.
    split; [done|]. split; [done|]. split; [done|]. split; [simpl; lia|].
    split; [by intros t ?%elem_of_nil | by intros q p ?%elem_of_nil].
  - cbn [fetch_topics]. unfold mbind, M_bind. cbn [print].
    destruct (get_news_articles_pages env topic 30
                (MkWorld (requests w) (scored w) (prompts w)
                   (console w ++ [FetchingTopic topic]) (artifact w)))
      as (pages & Hpages & Heq).
    rewrite Heq. unfold after_requests. cbn [requests scored prompts console artifact].
    set (mine := (fun p => (topic, p)) <$> seq 1 pages).
    assert (Hmine : length mine = pages) by (subst mine; by rewrite length_fmap, length_seq).
    assert (Hfirst : (topic, 1) ∈ mine).
    { subst mine. apply list_elem_of_fmap. exists 1. split; [done|].
      apply elem_of_seq. lia. }
    assert (Hrange : forall q p, (q, p) ∈ mine -> q = topic /\ 1 <= p <= max_pages).
    { subst mine. intros q p Hin. apply list_elem_of_fmap in Hin as (p' & Hp & Hin).
      injection Hp as -> ->. apply elem_of_seq in Hin. split; [done|lia]. }
    assert (Hgoal : forall acc1 w1,
      requests w1 = requests w ++ mine -> scored w1 = scored w -> prompts w1 = prompts w ->
      exists reqs,
        requests (fetch_topics env ts acc1 w1).2 = requests w ++ reqs
        /\ scored (fetch_topics env ts acc1 w1).2 = scored w
        /\ prompts (fetch_topics env ts acc1 w1).2 = prompts w
        /\ length (topic :: ts) <= length reqs <= length (topic :: ts) * max_pages
        /\ (forall t, t ∈ topic :: ts -> (t, 1) ∈ reqs)
        /\ (forall q p, (q, p) ∈ reqs -> q ∈ topic :: ts /\ 1 <= p <= max_pages)).
    { intros acc1 w1 Hr Hs Hp.
      destruct (IH acc1 w1) as (reqs & Hr' & Hs' & Hp' & Hlen & Hall & Hin).
      exists (mine ++ reqs). rewrite Hr', Hs', Hp', Hr, Hs, Hp, <- app_assoc.
      split; [done|]. split; [done|]. split; [done|]. split; [|split].
      - rewrite length_app, Hmine. cbn [length]. lia.
      - intros t [-> | Ht]%elem_of_cons; apply elem_of_app; [by left|].
        right. by apply Hall.
      - intros q p [Hq | Hq]%elem_of_app.
        + destruct (Hrange q p Hq) as [-> ?]. split; [by left|done].
        + destruct (Hin q p Hq). split; [by right|done]. }
    destruct (flat_map _ _) as [|a arts]; cbn [print]; by apply Hgoal.
Qed.

Lemma process_articles_calls (env : Env) (l : list Article.t) :
  forall (i n : nat) (acc : list Row.t) (w : World),
    requests (process_articles env i n l acc w).2 = requests w
    /\ exists sent,
         prompts (process_articles env i n l acc w).2 = prompts w ++ sent
         /\ length sent <= length (List.filter mentions_a_state l).
Proof.
  induction l as [|a l IH]; intros i n acc w.
  - simpl. split; [done|]. exists []. by rewrite app_nil_r.
  - cbn [process_articles]. unfold mbind, M_bind.
    destruct (process_article env i n a acc w) as [acc' w'] eqn:Hstep.
    rewrite process_article_eq in Hstep.
    destruct (IH (S i) n acc' w') as (Hreq & sent & Hsent & Hlen).
    rewrite Hreq, Hsent. destruct (progress_effect i n w) as (msgs0 & Hprog).
    cbn [List.filter]. unfold mentions_a_state at 1.
    destruct (extract_states (full_text_of a)) as [|s states] eqn:Hex.
    + injection Hstep as <- <-. rewrite Hprog. cbn [requests prompts].
      split; [done|]. by exists sent.
    + destruct (analyze_political_leaning_effect env (full_text_of a) (progress i n w))
        as (leaning & sent0 & Heq & Hone).
      rewrite Heq in Hstep. injection Hstep as <- <-. rewrite Hprog.
      cbn [requests prompts]. split; [done|].
      exists (sent0 ++ sent). rewrite app_assoc. split; [done|].
      rewrite length_app. cbn [length]. lia.
Qed.

(** X14. What a run asks of the outside: between 6 and 60 requests to the
    search service, each for one of the six topics and a page from 1 to 10,
    the first page of every topic among them; and at most one prompt to the
    classification service for each unique article whose text names a
    state. *)
Theorem run_usage_bounded (env : Env) (w : World) :
  let out := compile_news_political_data env w in
  let unique_articles := unique_by_url (fetch_topics env topics [] w).1 in
  exists reqs sent,
    requests out.2 = requests w ++ reqs
    /\ 6 <= length reqs <= 60
    /\ (forall t, t ∈ topics -> (t, 1) ∈ reqs)
    /\ (forall q p, (q, p) ∈ reqs -> q ∈ topics /\ 1 <= p <= 10)
    /\ prompts out.2 = prompts w ++ sent
    /\ length sent <= length (List.filter mentions_a_state unique_articles)
    /\ length (List.filter mentions_a_state unique_articles) <= length unique_articles.
Proof.
  intros out unique_articles. subst out.
  assert (Hfilter : length (List.filter mentions_a_state unique_articles)
                    <= length unique_articles) by apply List.filter_length_le.
  unfold compile_news_political_data, mbind, M_bind.
  destruct (fetch_topics_requests env topics [] w)
    as (reqs & Hreq & Hscored & Hprompts & Hlen & Hall & Hin).
  subst unique_articles.
  destruct (fetch_topics env topics [] w) as [all_articles w1].
  cbn [fst snd] in *. change (length topics) with 6 in Hlen.
  change max_pages with 10 in Hlen, Hin.
  destruct all_articles as [|a all_articles].
  - cbn [print mret M_ret snd requests prompts]. exists reqs, [].
    rewrite Hreq, Hprompts, app_nil_r.
    split; [done|]. split; [lia|]. split; [exact Hall|]. split; [exact Hin|].
    split; [done|]. split; [simpl; lia | exact Hfilter].
  - cbn [print]. set (unique_articles := unique_by_url (a :: all_articles)) in *.
    set (w2 := MkWorld _ _ _ _ _).
    destruct (process_articles_calls env unique_articles 0 (length unique_articles) [] w2)
      as (Hreq3 & sent & Hsent & Hone).
    destruct (process_articles env 0 (length unique_articles) unique_articles [] w2)
      as [df w3].
    cbn [fst snd] in *. subst w2. cbn [requests prompts] in *.
    exists reqs, sent.
    assert (Hend : forall w4 : World,
      requests w4 = requests w3 -> prompts w4 = prompts w3 ->
      requests w4 = requests w ++ reqs
      /\ 6 <= length reqs <= 60
      /\ (forall t, t ∈ topics -> (t, 1) ∈ reqs)
      /\ (forall q p, (q, p) ∈ reqs -> q ∈ topics /\ 1 <= p <= 10)
      /\ prompts w4 = prompts w ++ sent
      /\ length sent <= length (List.filter mentions_a_state unique_articles)
      /\ length (List.filter mentions_a_state unique_articles) <= length unique_articles).
    { intros w4 Hr4 Hp4. rewrite Hr4, Hp4, Hreq3, Hsent, Hreq, Hprompts.
      split; [done|]. split; [lia|]. split; [exact Hall|]. split; [exact Hin|].
      split; [done|]. split; [exact Hone | exact Hfilter]. }
    destruct df as [|r df]; cbn [to_csv print mret M_ret snd]; by apply Hend.
Qed.

(** ** The composite text *)

Lemma str_app_cons (c : ascii) (s1 s2 : string) :
  String c s1 +:+ s2 = String c (s1 +:+ s2).
Proof. reflexivity. Qed.

Lemma str_app_assoc (s1 s2 s3 : string) : (s1 +:+ s2) +:+ s3 = s1 +:+ s2 +:+ s3.
Proof. induction s1 as [|c s1 IH]; [done|]. by rewrite !str_app_cons, IH. Qed.

Lemma str_app_nil_r (s : string) : s +:+ "" = s.
Proof. induction s as [|c s IH]; [done|]. by rewrite str_app_cons, IH. Qed.

Lemma contains_embedded (needle part pre post : string) :
  PyStr.contains needle part = true ->
  PyStr.contains needle (pre +:+ part +:+ post) = true.
Proof.
  rewrite !contains_spec. intros (a & b & ->).
  exists (pre +:+ a), (b +:+ post). by rewrite !str_app_assoc.
Qed.

Lemma padded_stands_in (part full : string) :
  stands_in part full ->
  exists a b, " " +:+ full +:+ " " = a +:+ (" " +:+ part +:+ " ") +:+ b.
Proof.
  intros (pre & post & -> & [-> | [pre' ->]] & [-> | [post' ->]]).
  - exists "", "". by rewrite !str_app_nil_r.
  - exists "", (post' +:+ " "). simpl. by rewrite !str_app_assoc.
  - exists (" " +:+ pre'), "". by rewrite !str_app_nil_r, !str_app_assoc.
  - exists (" " +:+ pre'), (post' +:+ " "). by rewrite !str_app_assoc.
Qed.

(** A table entry met in a part of a text that stands there on its own is
    met in the whole text. *)
Lemma state_hit_stands_in (part full state : string) :
  stands_in part full -> state_hit part state = true -> state_hit full state = true.
Proof.
  intros Hin. unfold state_hit. rewrite !orb_true_iff.
  intros [[Hpad | Hcomma] | Hdot].
  - left. left. destruct (padded_stands_in _ _ Hin) as (a & b & ->).
    by apply contains_embedded.
  - left. right. destruct Hin as (pre & post & -> & _). by apply contains_embedded.
  - right. destruct Hin as (pre & post & -> & _). by apply contains_embedded.
Qed.

Lemma extract_states_stands_in (part full : string) :
  stands_in part full -> extract_states part ⊆ extract_states full.
Proof.
  intros Hin s Hs. pose proof (extract_states_full_names _ _ Hs) as Hname.
  destruct table_check as (_ & _ & _ & Hmap & _). rewrite <- Hmap in Hname.
  apply list_elem_of_fmap in Hname as (abbr & -> & Habbr).
  apply elem_of_extract_states in Hs; [|assumption].
  apply elem_of_extract_states; [assumption|].
  destruct Hs as [Hs | Hs]; [left | right]; by apply (state_hit_stands_in part).
Qed.

Lemma full_text_parts (article : Article.t) :
  stands_in (Article.title article) (full_text_of article)
  /\ (Article.description article <> "" ->
      stands_in (Article.description article) (full_text_of article))
  /\ (Article.body article <> "" ->
      stands_in (Article.body article) (full_text_of article)).
Proof.
  unfold full_text_of, stands_in.
  destruct (String.eqb_spec (Article.description article) "") as [Hd | Hd];
    destruct (String.eqb_spec (Article.body article) "") as [Hb | Hb].
  - split; [|split; [done|done]].
    exists "", "". split; [by rewrite str_app_nil_r|]. split; by left.
  - split; [|split; [done|]].
    + exists "", (" " +:+ Article.body article). split; [done|].
      split; [by left | right; by eexists].
    + intros _. exists (Article.title article +:+ " "), "".
      split; [by rewrite str_app_nil_r, str_app_assoc|]. split; [right; by eexists | by left].
  - split; [|split; [|done]].
    + exists "", (" " +:+ Article.description article). split; [done|].
      split; [by left | right; by eexists].
    + intros _. exists (Article.title article +:+ " "), "".
      split; [by rewrite str_app_nil_r, str_app_assoc|]. split; [right; by eexists | by left].
  - split; [|split].
    + exists "", (" " +:+ Article.description article +:+ " " +:+ Article.body article).
      split; [by rewrite !str_app_assoc|]. split; [by left | right; by eexists].
    + intros _. exists (Article.title article +:+ " "), (" " +:+ Article.body article).
      split; [by rewrite !str_app_assoc|]. split; right; by eexists.
    + intros _.
      exists (Article.title article +:+ " " +:+ Article.description article +:+ " "), "".
      split; [by rewrite str_app_nil_r, !str_app_assoc|].
      split; [right; exists (Article.title article +:+ " " +:+ Article.description article);
              by rewrite !str_app_assoc | by left].
Qed.

(** X15. The composite text loses no mention: a state that
    [extract_states] finds in the title alone, in the description alone or
    in the body alone, it finds in the composite text of the article. *)
Theorem composite_text_keeps_mentions (article : Article.t) :
  extract_states (Article.title article) ⊆ extract_states (full_text_of article)
  /\ extract_states (Article.description article) ⊆ extract_states (full_text_of article)
  /\ extract_states (Article.body article) ⊆ extract_states (full_text_of article).
Proof.
  destruct (full_text_parts article) as (Ht & Hd & Hb).
  assert (Hempty : extract_states "" = []) by (by vm_compute).
  split; [by apply extract_states_stands_in|]. split.
  - destruct (String.eqb_spec (Article.description article) "") as [-> | Hne].
    + rewrite Hempty. by intros s ?%elem_of_nil.
    + by apply extract_states_stands_in, Hd.
  - destruct (String.eqb_spec (Article.body article) "") as [-> | Hne].
    + rewrite Hempty. by intros s ?%elem_of_nil.
    + by apply extract_states_stands_in, Hb.
Qed.

(** ** The state codes of the dashboard *)

Lemma filter_none {A : Type} (p : A -> bool) (l : list A) :
  (forall x, x ∈ l -> p x = false) -> List.filter p l = [].
Proof.
  induction l as [|x l IH]; intros H; [done|]. cbn [List.filter].
  rewrite (H x) by by left. apply IH. intros y Hy. apply H. by right.
Qed.

Lemma full_name_has_code (name : string) :
  name ∈ full_names -> is_Some (state_code name).
Proof.
  intros Hin.
  assert (Hall : forallb (fun s => bool_decide (is_Some (state_code s))) full_names = true)
    by (vm_compute; reflexivity).
  apply (forallb_elem _ _ _ Hall) in Hin. by apply bool_decide_eq_true in Hin.
Qed.

Lemma missing_codes_full_names (l : list string) :
  (forall s, s ∈ l -> s ∈ full_names) -> missing_codes l = [].
Proof.
  intros H. apply filter_none. intros s Hs. apply negb_false_iff, bool_decide_eq_true.
  by apply full_name_has_code, H.
Qed.

(** X16. The dashboard's state codes agree with the State Matcher: the code
    of a state name is the abbreviation that the matcher resolves to that
    name, and a code other than that of the District of Columbia resolves
    back to its name.  So no state that [extract_states] returns, and no
    state in the table of a run, is without a code. *)
Theorem state_codes_agree_with_matcher :
  (forall abbr name, abbr_to_name !! abbr = Some name -> state_code name = Some abbr)
  /\ (forall name abbr, state_code name = Some abbr ->
        name = "District of Columbia" \/ abbr_to_name !! abbr = Some name)
  /\ (forall text, missing_codes (extract_states text) = [])
  /\ (forall env w,
        missing_codes (Row.state <$> (compile_news_political_data env w).1) = []).
Proof.
  split; [|split; [|split]].
  - intros abbr name H. apply elem_of_list_to_map_2 in H.
    assert (Hall : forallb (fun p => bool_decide (state_code p.2 = Some p.1))
                     abbr_to_name_items = true) by (vm_compute; reflexivity).
    apply (forallb_elem _ _ _ Hall) in H. by apply bool_decide_eq_true in H.
  - intros name abbr H. unfold state_code in H. apply elem_of_list_to_map_2 in H.
    assert (Hall : forallb (fun p => String.eqb p.1 "District of Columbia"
                                     || bool_decide (abbr_to_name !! p.2 = Some p.1))
                     STATE_ABBREV_items = true) by (vm_compute; reflexivity).
    apply (forallb_elem _ _ _ Hall) in H. apply orb_true_iff in H as [H | H].
    + left. by apply String.eqb_eq in H.
    + right. by apply bool_decide_eq_true in H.
  - intros text. apply missing_codes_full_names. intros s.
    apply extract_states_full_names.
  - intros env w. apply missing_codes_full_names. intros s Hs.
    destruct (compile_rows env w) as (scores & _ & Heq & _). rewrite Heq in Hs.
    apply list_elem_of_fmap in Hs as (r & -> & Hr).
    apply elem_of_rows_of in Hr as (a & leaning & s & _ & Hs & ->).
    by apply extract_states_full_names in Hs.
Qed.

(** ** The Enrichment Pipeline: topics in turn, and a second run *)

Lemma fetch_pages_result_world (env : Env) (fuel : nat) :
  forall (query : string) (days_back page : nat) (acc : list Article.t) (w w' : World),
    (fetch_pages env fuel query days_back page acc w).1
    = (fetch_pages env fuel query days_back page acc w').1.
Proof.
  induction fuel as [|fuel IH]; intros query days_back page acc w w'; [done|].
  rewrite !fetch_pages_step. destruct (page <=? max_pages)%nat; [|done]. cbv zeta.
  destruct (articlesCount <=? _)%nat; [|done]. apply IH.
Qed.

Lemma fetch_topics_result (env : Env) (ts : list string) :
  forall (acc : list Article.t) (w w0 : World),
    (fetch_topics env ts acc w).1
    = acc ++ flat_map (fun topic => (get_news_articles env topic 30 w0).1) ts.
Proof.
  induction ts as [|topic ts IH]; intros acc w w0.
  - simpl. by rewrite app_nil_r.
  - cbn [fetch_topics flat_map]. unfold mbind, M_bind. cbn [print].
    set (w1 := MkWorld _ _ _ _ _).
    assert (Hsame : (get_news_articles env topic 30 w1).1
                    = (get_news_articles env topic 30 w0).1)
      by apply fetch_pages_result_world.
    destruct (get_news_articles env topic 30 w1) as [articles w2].
    cbn [fst] in Hsame. rewrite <- Hsame.
    destruct articles as [|a articles]; cbn [print].
    + rewrite (IH acc _ w0). done.
    + rewrite (IH _ _ w0). by rewrite <- app_assoc.
Qed.

(** X17. The articles of a run are those of the six topics one after the
    other, in the order of the topics, each topic fetched with a window of
    30 days; with the rule that the first of two lists wins, an article
    fetched for an earlier topic is the one kept. *)
Theorem fetched_articles_in_topic_order (env : Env) (w : World) :
  (fetch_topics env topics [] w).1
  = flat_map (fun topic => (get_news_articles env topic 30 w).1) topics
  /\ topics = ["politics"; "election"; "governor"; "senator"; "congress";
               "state legislation"].
Proof. split; [|reflexivity]. by rewrite (fetch_topics_result env topics [] w w). Qed.

Lemma transform_same_answers (env1 env2 : Env) (r : raw_article) :
  same_answers env1 env2 -> transform env1 r = transform env2 r.
Proof. intros (_ & _ & Hiso & Hdate). unfold transform. by rewrite Hiso, Hdate. Qed.

Lemma page_results_same_answers (env1 env2 : Env) (query : string)
    (days_back page : nat) :
  same_answers env1 env2 ->
  page_results env1 query days_back page = page_results env2 query days_back page.
Proof. intros (Hnews & _). unfold page_results. by rewrite Hnews. Qed.

Lemma fetch_pages_same_answers (env1 env2 : Env) (fuel : nat) :
  same_answers env1 env2 ->
  forall (query : string) (days_back page : nat) (acc : list Article.t) (w w' : World),
    (fetch_pages env1 fuel query days_back page acc w).1
    = (fetch_pages env2 fuel query days_back page acc w').1.
Proof.
  intros Hsame.
  induction fuel as [|fuel IH]; intros query days_back page acc w w'; [done|].
  rewrite !fetch_pages_step.
  destruct (page <=? max_pages)%nat; [|done]. cbv zeta.
  rewrite (page_results_same_answers env1 env2 query days_back page Hsame).
  assert (Htr : transform env1 <$> page_results env2 query days_back page
                = transform env2 <$> page_results env2 query days_back page).
  { apply list_fmap_ext. intros _ r _. by apply transform_same_answers. }
  rewrite Htr.
  destruct (articlesCount <=? _)%nat; [|done]. apply IH.
Qed.

Lemma fetch_topics_same_answers (env1 env2 : Env) (ts : list string)
    (acc : list Article.t) (w w' : World) :
  same_answers env1 env2 ->
  (fetch_topics env1 ts acc w).1 = (fetch_topics env2 ts acc w').1.
Proof.
  intros Hsame.
  rewrite (fetch_topics_result env1 ts acc w w), (fetch_topics_result env2 ts acc w' w).
  f_equal. induction ts as [|topic ts IH]; [done|]. cbn [flat_map]. rewrite IH.
  f_equal. by apply fetch_pages_same_answers.
Qed.

Lemma analyze_same_answers (env1 env2 : Env) (text : string) (w w' : World) :
  same_answers env1 env2 ->
  (analyze_political_leaning env1 text w).1 = (analyze_political_leaning env2 text w').1.
Proof.
  intros (_ & Hchat & _).
  unfold analyze_political_leaning, mbind, M_bind, mret, M_ret, enter_scorer,
    chat_completion.
  destruct (String.eqb text "" || (String.length (PyStr.strip text) <? 10)%nat);
    [done|].
  cbn [prompts requests scored console artifact].
  rewrite (Hchat (length (prompts w)) (length (prompts w'))).
  destruct (openai_chat env2 _ _) as [|content]; [done|].
  by destruct (float_of_str (PyStr.strip content)).
Qed.

Lemma process_articles_same_answers (env1 env2 : Env) (l : list Article.t) :
  same_answers env1 env2 ->
  forall (i i' n n' : nat) (acc : list Row.t) (w w' : World),
    (process_articles env1 i n l acc w).1 = (process_articles env2 i' n' l acc w').1.
Proof.
  intros Hsame. induction l as [|a l IH]; intros i i' n n' acc w w'; [done|].
  cbn [process_articles]. unfold mbind, M_bind.
  destruct (process_article env1 i n a acc w) as [acc1 w1] eqn:H1.
  destruct (process_article env2 i' n' a acc w') as [acc2 w2] eqn:H2.
  rewrite process_article_eq in H1, H2.
  assert (acc1 = acc2) as ->; [|apply IH].
  destruct (extract_states (full_text_of a)).
  - injection H1 as <- _. by injection H2 as <- _.
  - injection H1 as <- _. injection H2 as <- _.
    by rewrite (analyze_same_answers env1 env2 _ (progress i n w) (progress i' n' w')).
Qed.

(** The table of a run in closed form: the rows of the articles fetched,
    made on some world. *)
Lemma compile_table (env : Env) (w : World) :
  exists w',
    (compile_news_political_data env w).1
    = match (fetch_topics env topics [] w).1 with
      | [] => []
      | all_articles =>
          (process_articles env 0 (length (unique_by_url all_articles))
             (unique_by_url all_articles) [] w').1
      end.
Proof.
  unfold compile_news_political_data, mbind, M_bind.
  destruct (fetch_topics env topics [] w) as [all_articles w1].
  cbn [fst]. destruct all_articles as [|a all_articles]; [by exists w|].
  cbn [print]. set (unique_articles := unique_by_url (a :: all_articles)).
  set (w2 := MkWorld _ _ _ _ _). exists w2.
  destruct (process_articles env 0 (length unique_articles) unique_articles [] w2)
    as [df w3].
  by destruct df.
Qed.

Lemma compile_same_answers (env1 env2 : Env) (w w' : World) :
  same_answers env1 env2 ->
  (compile_news_political_data env1 w).1 = (compile_news_political_data env2 w').1.
Proof.
  intros Hsame.
  destruct (compile_table env1 w) as (w1 & ->).
  destruct (compile_table env2 w') as (w2 & ->).
  rewrite (fetch_topics_same_answers env1 env2 topics [] w w' Hsame).
  destruct ((fetch_topics env2 topics [] w').1) as [|a all_articles]; [done|].
  by apply process_articles_same_answers.
Qed.

Lemma compile_artifact (env : Env) (w : World) :
  artifact (compile_news_political_data env w).2
  = match (compile_news_political_data env w).1 with
    | [] => artifact w
    | df => Some df
    end.
Proof.
  unfold compile_news_political_data, mbind, M_bind.
  destruct (fetch_topics_effect env topics [] w) as (Hart1 & _).
  destruct (fetch_topics env topics [] w) as [all_articles w1].
  cbn [fst snd] in *. destruct all_articles as [|a all_articles]; [done|].
  cbn [print]. set (unique_articles := unique_by_url (a :: all_articles)).
  set (w2 := MkWorld _ _ _ _ _).
  destruct (process_articles_effect env 0 (length unique_articles) unique_articles [] w2)
    as (_ & _ & Hart3 & _).
  destruct (process_articles env 0 (length unique_articles) unique_articles [] w2)
    as [df w3].
  cbn [fst snd] in *. subst w2. cbn [artifact] in Hart3.
  destruct df as [|r df]; cbn [to_csv print mret M_ret fst snd artifact]; [|done].
  by rewrite Hart3.
Qed.

(** X18. A run keeps nothing of the run before it.  Let a first run be made
    with the services [env1] and a second run, on the world the first one
    left, with the services [env2].  If the services of the second run
    answer as those of the first did (the same search results for every
    page of every query, the same completion for a prompt whatever was
    asked before, the same clock), the second run returns the table of the
    first and leaves the artifact as the first left it.  Whatever the
    services of the second run answer, when its table has a row the
    artifact afterwards is that table alone, with no row of the first run
    added; when it has none the artifact of the first run stays.  The
    condition on the services is needed: with a search service that has
    found one more article the second table differs from the first. *)
Theorem second_run_same_table (env1 env2 : Env) (w : World) :
  let first := compile_news_political_data env1 w in
  let second := compile_news_political_data env2 first.2 in
  (same_answers env1 env2 ->
     second.1 = first.1 /\ artifact second.2 = artifact first.2)
  /\ artifact second.2 = match second.1 with
                         | [] => artifact first.2
                         | df => Some df
                         end
  /\ (compile_news_political_data env_second_article
        (compile_news_political_data env_one_article world0).2).1
     <> (compile_news_political_data env_one_article world0).1.
Proof.
  intros first second. subst first second.
  split; [|split].
  - intros Hsame.
    assert (Heq : (compile_news_political_data env2
                     (compile_news_political_data env1 w).2).1
                  = (compile_news_political_data env1 w).1)
      by (symmetry; by apply compile_same_answers).
    split; [exact Heq|].
    rewrite (compile_artifact env2 (compile_news_political_data env1 w).2), Heq.
    rewrite (compile_artifact env1 w).
    by destruct ((compile_news_political_data env1 w).1).
  - apply compile_artifact.
  - intros H. apply (f_equal length) in H. vm_compute in H. discriminate H.
Qed.

(** X18 on the service with one article that names two states, asked
    twice. *)
Lemma second_run_same_table_witness :
  same_answers env_one_article env_one_article
  /\ length (compile_news_political_data env_one_article world0).1 = 2
  /\ (compile_news_political_data env_one_article
        (compile_news_political_data env_one_article world0).2).1
     = (compile_news_political_data env_one_article world0).1.
Proof.
  assert (H : same_answers env_one_article env_one_article).
  { split; [reflexivity|]. split; [|split; reflexivity].
    intros n m prompt. reflexivity. }
  split; [exact H|]. split; [vm_compute; reflexivity|].
  apply (proj1 (second_run_same_table env_one_article env_one_article world0) H).
Defined.
